(** * Gantry dashboard: the telemetry stream hook and the incident views

    A shallow embedding of the client-side protocol core of Gantry:

    - [useWebSocket] (frontend/src/hooks/useWebSocket.js): the message
      router, the step timeline, and the reconnecting connection;
    - [App] (frontend/src/App.jsx): the derived [status] value, the props
      of the critical overlay and [handleDismissOverlay];
    - [CriticalOverlay] (components/CriticalOverlay.jsx): [handleAccept];
    - [ReasoningLog] (components/ReasoningLog.jsx): the length-comparison
      effect.

    React state is a record, one field per [useState]; a handler is a
    function on that record.  React applies the updates queued by one
    handler together and in order, which is function composition. *)

From stdpp Require Import gmap strings list pretty.
From Stdlib Require Import ZArith QArith Qcanon Lia.

#[local] Close Scope Qc_scope.
#[local] Close Scope Q_scope.
#[local] Open Scope Z_scope.

Set Warnings "-register-all".

(** ** JavaScript values and the operators the sources use *)

Module JS.

(** A JavaScript number that [JSON.parse] can produce.  [0] and [-0] are
    one number here: they are [===] and equally falsy, and the sources
    never divide by them.  [NaN] has no JSON spelling. *)
Inductive number :=
  | Finite (q : Qc)
  | PosInfinity
  | NegInfinity.

Inductive value :=
  | VUndefined
  | VNull
  | VBool (b : bool)
  | VNum (n : number)
  | VStr (s : string)
  | VArr (items : list value)
  | VObj (fields : gmap string value).

#[global] Instance number_eq_dec : EqDecision number.
Proof. solve_decision. Defined.

Definition num (z : Z) : value := VNum (Finite (Q2Qc (inject_Z z))).

Inductive exn :=
  | SyntaxError
  | TypeError
  | Rejected (reason : value).

(** The outcome of evaluating something that may throw. *)
Inductive completion (A : Type) :=
  | Normal (a : A)
  | Throw (e : exn).
Arguments Normal {A} a.
Arguments Throw {A} e.

Definition nullish (v : value) : bool :=
  match v with
  | VUndefined | VNull => true
  | _ => false
  end.

(** Own property of an object; [undefined] when absent.  Strings, numbers,
    booleans and arrays have none of the names the sources read. *)
Definition own_property (v : value) (k : string) : value :=
  match v with
  | VObj fields => default VUndefined (fields !! k)
  | _ => VUndefined
  end.

(** [v.k]: a [TypeError] on [null] and [undefined]. *)
Definition get (v : value) (k : string) : completion value :=
  if nullish v then Throw TypeError else Normal (own_property v k).

(** [v?.k] *)
Definition get_opt (v : value) (k : string) : value :=
  if nullish v then VUndefined else own_property v k.

(** [a ?? b] *)
Definition coalesce (a b : value) : value :=
  if nullish a then b else a.

(** ToBoolean, as [if], [!], [!!] and [||] apply it. *)
Definition to_boolean (v : value) : bool :=
  match v with
  | VUndefined | VNull => false
  | VBool b => b
  | VNum n => negb (bool_decide (n = Finite (Q2Qc 0)))
  | VStr s => negb (bool_decide (s = ""))
  | VArr _ | VObj _ => true
  end.

(** [a === b].  Arrays and objects compare by reference.  Every [===] of
    the sources has a string literal on one side or compares values of two
    separately parsed frames, so two composite operands are never the same
    reference. *)
Definition strict_equals (a b : value) : bool :=
  match a, b with
  | VUndefined, VUndefined => true
  | VNull, VNull => true
  | VBool x, VBool y => bool_decide (x = y)
  | VNum x, VNum y => bool_decide (x = y)
  | VStr x, VStr y => bool_decide (x = y)
  | _, _ => false
  end.

(** A value without identity of its own: compared by content. *)
Definition scalar (v : value) : bool :=
  match v with
  | VArr _ | VObj _ => false
  | _ => true
  end.

(** What arrives in [evt.data], as [JSON.parse] sees it: text it rejects,
    or the value the text denotes. *)
Inductive frame :=
  | Malformed (text : string)
  | Json (data : value).

Definition JSON_parse (f : frame) : completion value :=
  match f with
  | Malformed _ => Throw SyntaxError
  | Json data => Normal data
  end.

(** Statements run against a state [S]; what was written before a throw
    stays written. *)
Definition action (S A : Type) : Type := S → completion A * S.

Definition ret {S A} (a : A) : action S A := λ s, (Normal a, s).

Definition bind {S A B} (m : action S A) (k : A → action S B) : action S B :=
  λ s, match m s with
       | (Normal a, s') => k a s'
       | (Throw e, s') => (Throw e, s')
       end.

Definition eval {S A} (c : completion A) : action S A := λ s, (c, s).

Definition modify {S} (f : S → S) : action S unit := λ s, (Normal (), f s).

(** [try { body } catch (e) { handler e }] *)
Definition try_catch {S A} (body : action S A) (handler : exn → action S A)
  : action S A :=
  λ s, match body s with
       | (Normal a, s') => (Normal a, s')
       | (Throw e, s') => handler e s'
       end.

Definition exn_value (e : exn) : value :=
  match e with
  | SyntaxError => VStr "SyntaxError"
  | TypeError => VStr "TypeError"
  | Rejected reason => reason
  end.

(** [a || b], as a value: [a] if it is truthy, else [b]. *)
Definition or_else (a b : value) : value :=
  if to_boolean a then a else b.

(** [new Error(message)] *)
Definition Error (message : string) : value :=
  VObj {[ "message" := VStr message ]}.

(** [e.message] for a caught [e].  The text of an error the engine raises
    is the engine's own; the name of the error stands for it. *)
Definition message (e : exn) : completion value :=
  match e with
  | Rejected reason => get reason "message"
  | SyntaxError => Normal (VStr "SyntaxError")
  | TypeError => Normal (VStr "TypeError")
  end.

(** [try { body } finally { finalizer }]: the finalizer runs however the
    body ended; if it throws, that replaces the completion of the body. *)
Definition try_finally {S A} (body : action S A) (finalizer : action S unit)
  : action S A :=
  λ s, let '(c, s') := body s in
       match finalizer s' with
       | (Normal _, s'') => (c, s'')
       | (Throw e, s'') => (Throw e, s'')
       end.

End JS.

Import JS.

Notation "'let*' x ':=' m 'in' k" := (bind m (λ x, k))
  (at level 10, x name, m at level 100, k at level 200).
Notation "m '>>' k" := (bind m (λ _, k))
  (at level 100, k at level 200, right associativity).

(** A handler invoked by the browser or by React: what it threw is reported
    to the console and goes no further, what it wrote stays. *)
Definition exec {S} (handler : action S unit) (s : S) : S := (handler s).2.

(** ** hooks/useWebSocket.js *)

Module useWebSocket.

(** *** The values held by [useState] *)

Record state := State {
  lastMessage : value;
  lastAlert : value;
  connected : bool;
  criticalEvent : value;
  streamingLogs : list value;
  agentSolution : value;
}.

Definition initial : state :=
  {| lastMessage := VNull; lastAlert := VNull; connected := false;
     criticalEvent := VNull; streamingLogs := []; agentSolution := VNull |}.

Definition setLastMessage (v : value) : action state unit :=
  modify (λ st, State v (lastAlert st) (connected st) (criticalEvent st)
                      (streamingLogs st) (agentSolution st)).

Definition setLastAlert (v : value) : action state unit :=
  modify (λ st, State (lastMessage st) v (connected st) (criticalEvent st)
                      (streamingLogs st) (agentSolution st)).

Definition setConnected (b : bool) : action state unit :=
  modify (λ st, State (lastMessage st) (lastAlert st) b (criticalEvent st)
                      (streamingLogs st) (agentSolution st)).

Definition setCriticalEvent (v : value) : action state unit :=
  modify (λ st, State (lastMessage st) (lastAlert st) (connected st) v
                      (streamingLogs st) (agentSolution st)).

(** The setter is given an updater, [prev => next]; [setStreamingLogs([])]
    is the constant updater. *)
Definition setStreamingLogs (updater : list value → list value)
  : action state unit :=
  modify (λ st, State (lastMessage st) (lastAlert st) (connected st)
                      (criticalEvent st) (updater (streamingLogs st))
                      (agentSolution st)).

Definition setAgentSolution (v : value) : action state unit :=
  modify (λ st, State (lastMessage st) (lastAlert st) (connected st)
                      (criticalEvent st) (streamingLogs st) v).

Definition dismissCritical : action state unit := setCriticalEvent VNull.
Definition resetStreamingLogs : action state unit := setStreamingLogs (λ _, []).
Definition clearSolution : action state unit := setAgentSolution VNull.

(** *** [ws.onmessage] *)

(** [s.step]: the identifier of a held step. *)
Definition step_of (s : value) : value := own_property s "step".

(** The updater of the [mcp_step] branch:
    [if (prev.some((s) => s.step === data.step)) return prev;
     return [...prev, data]].
    It runs once [data.type] has been read, so [data] is not nullish, and
    the entries of [prev] were such [data] ([held_steps_typed] below): no
    read here can throw. *)
Definition append_step (data : value) (prev : list value) : list value :=
  if existsb (λ s, strict_equals (step_of s) (step_of data)) prev
  then prev
  else prev ++ [data].

(** [data.type === name] *)
Definition type_is (data : value) (name : string) : action state bool :=
  let* type := eval (get data "type") in
  ret (strict_equals type (VStr name)).

(** [data.isError || data.severity === "critical"], as the [if] tests it. *)
Definition qualifies (data : value) : action state bool :=
  let* isError := eval (get data "isError") in
  if to_boolean isError then ret true
  else
    let* severity := eval (get data "severity") in
    ret (strict_equals severity (VStr "critical")).

(** Every branch of the source ends in [return]; the chain of [else]
    says the same. *)
Definition onmessage (evt_data : frame) : action state unit :=
  try_catch
    (let* data := eval (JSON_parse evt_data) in
     let* is_step := type_is data "mcp_step" in
     if is_step then
       setStreamingLogs (append_step data)
     else
       let* is_solution := type_is data "solution" in
       if is_solution then
         setAgentSolution data
       else
         let* is_alert := type_is data "alert" in
         if is_alert then
           setLastAlert data >>
           let* critical := qualifies data in
           if critical then setCriticalEvent data else ret ()
         else
           let* is_resumed := type_is data "system_resumed" in
           if is_resumed then
             setLastMessage VNull >>
             setCriticalEvent VNull >>
             setStreamingLogs (λ _, []) >>
             setAgentSolution VNull
           else
             setLastMessage data)
    (λ _, ret ()).

(** *** The connection: refs, sockets and timers *)

Inductive readyState := CONNECTING | OPEN | CLOSING | CLOSED.

#[global] Instance readyState_eq_dec : EqDecision readyState.
Proof. solve_decision. Defined.

(** A [WebSocket] made by [connect]; its URL is fixed by the page and by
    the [unitId] that [connect] closed over. *)
Record socket := Socket {
  unit_of : string;
  ready : readyState;
}.

(** A pending [setTimeout(connect, delay)]. *)
Record timeout := Timeout {
  delay : Z;
  reconnects : string;
}.

Record session := Session {
  view : state;
  wsRef : option nat;          (* wsRef.current: an index into [sockets] *)
  timer : option nat;          (* timer.current: a timeout id *)
  tries : Z;                   (* tries.current *)
  sockets : list socket;       (* every socket made so far, oldest first *)
  timeouts : gmap nat timeout; (* the timeouts still pending, by id *)
  next_timeout : nat;
}.

Definition on_view {A} (a : action state A) : action session A :=
  λ s, let '(r, v) := a (view s) in
       (r, Session v (wsRef s) (timer s) (tries s) (sockets s) (timeouts s)
                   (next_timeout s)).

Definition set_wsRef (r : option nat) : action session unit :=
  modify (λ s, Session (view s) r (timer s) (tries s) (sockets s)
                       (timeouts s) (next_timeout s)).

Definition set_timer (t : option nat) : action session unit :=
  modify (λ s, Session (view s) (wsRef s) t (tries s) (sockets s)
                       (timeouts s) (next_timeout s)).

Definition set_tries (n : Z) : action session unit :=
  modify (λ s, Session (view s) (wsRef s) (timer s) n (sockets s)
                       (timeouts s) (next_timeout s)).

Definition set_sockets (l : list socket) : action session unit :=
  modify (λ s, Session (view s) (wsRef s) (timer s) (tries s) l
                       (timeouts s) (next_timeout s)).

Definition read {S A} (f : S → A) : action S A := λ s, (Normal (f s), s).

(** [new WebSocket(url)]: a socket in state CONNECTING; its index. *)
Definition new_WebSocket (unitId : string) : action session nat :=
  let* l := read sockets in
  set_sockets (l ++ [Socket unitId CONNECTING]) >>
  ret (length l).

(** [ws.close()]: starts closing a socket that is connecting or open, and
    does nothing to one that is closing or closed. *)
Definition close (ws : nat) : action session unit :=
  let* l := read sockets in
  set_sockets (alter (λ k, match ready k with
                           | CONNECTING | OPEN => Socket (unit_of k) CLOSING
                           | CLOSING | CLOSED => k
                           end) ws l).

(** [setTimeout(connect, delay)]: the id of the new timeout. *)
Definition setTimeout (unitId : string) (ms : Z) : action session nat :=
  let* id := read next_timeout in
  modify (λ s, Session (view s) (wsRef s) (timer s) (tries s) (sockets s)
                       (<[id := Timeout ms unitId]> (timeouts s)) (S id)) >>
  ret id.

(** [clearTimeout(id)]: nothing happens for [null] or a timeout that has
    fired or was cleared. *)
Definition clearTimeout (id : option nat) : action session unit :=
  match id with
  | Some t =>
      modify (λ s, Session (view s) (wsRef s) (timer s) (tries s) (sockets s)
                           (delete t (timeouts s)) (next_timeout s))
  | None => ret ()
  end.

(** [Math.min(2000 * 2 ** tries.current, 30000)].  The double
    [2000 * 2 ** n] is exact until it overflows to [Infinity], far above
    30000, so the minimum is the one of the integers. *)
Definition backoff (n : Z) : Z := Z.min (2000 * 2 ^ n) 30000.

(** The body of [connect], up to the handlers, which are the four
    definitions after it. *)
Definition connect (unitId : string) : action session unit :=
  if negb (to_boolean (VStr unitId)) then ret ()
  else
    let* ws := new_WebSocket unitId in
    set_wsRef (Some ws).

Definition onopen : action session unit :=
  on_view (setConnected true) >>
  set_tries 0.

(** [unitId] is the one of the [connect] that made the socket. *)
Definition onclose (unitId : string) : action session unit :=
  on_view (setConnected false) >>
  let* n := read tries in
  let delay := backoff n in
  set_tries (n + 1) >>
  let* id := setTimeout unitId delay in
  set_timer (Some id).

Definition onerror (ws : nat) : action session unit := close ws.

(** The effect of [useEffect(..., [connect])] and its cleanup. *)
Definition effect (unitId : string) : action session unit :=
  on_view (setStreamingLogs (λ _, [])) >>
  on_view (setAgentSolution VNull) >>
  connect unitId.

Definition cleanup : action session unit :=
  let* t := read timer in
  clearTimeout t >>
  let* ws := read wsRef in
  match ws with
  | Some w => close w
  | None => ret ()
  end.

(** *** What the browser and React do to a session *)

Inductive event :=
  | ChangeUnit (unitId : string)          (* a render with another [unitId] *)
  | Unmount
  | SocketOpen (ws : nat)
  | SocketMessage (ws : nat) (evt_data : frame)
  | SocketClose (ws : nat) (failed : bool) (* [error] comes first if failed *)
  | TimerFire (id : nat).

(** The session after the first render with [unitId] and its effect. *)
Definition mount (unitId : string) : session :=
  exec (effect unitId) (Session initial None None 0 [] ∅ 0%nat).

Definition set_ready (ws : nat) (r : readyState) : action session unit :=
  let* l := read sockets in
  set_sockets (alter (λ k, Socket (unit_of k) r) ws l).

(** An event happens only when the browser can raise it: [open] on a
    connecting socket, [message] on an open one, [close] once on a socket
    not yet closed, a timeout while it is pending. *)
Definition step (s : session) (e : event) : option session :=
  match e with
  | ChangeUnit unitId =>
      Some (exec (cleanup >> effect unitId) s)
  | Unmount =>
      Some (exec cleanup s)
  | SocketOpen ws =>
      k ← sockets s !! ws;
      if decide (ready k = CONNECTING)
      then Some (exec onopen (exec (set_ready ws OPEN) s))
      else None
  | SocketMessage ws evt_data =>
      k ← sockets s !! ws;
      if decide (ready k = OPEN)
      then Some (exec (on_view (onmessage evt_data)) s)
      else None
  | SocketClose ws failed =>
      k ← sockets s !! ws;
      if decide (ready k = CLOSED) then None
      else
        let s := exec (set_ready ws CLOSED) s in
        let s := if failed then exec (onerror ws) s else s in
        Some (exec (onclose (unit_of k)) s)
  | TimerFire id =>
      t ← timeouts s !! id;
      Some (exec (connect (reconnects t))
              (Session (view s) (wsRef s) (timer s) (tries s) (sockets s)
                       (delete id (timeouts s)) (next_timeout s)))
  end.

Fixpoint run (s : session) (trace : list event) : option session :=
  match trace with
  | [] => Some s
  | e :: trace => s' ← step s e; run s' trace
  end.

End useWebSocket.

(** ** App.jsx *)

Module App.

Import useWebSocket.

(** [data] is the snapshot that [runOrchestration] stored, or [null];
    [hook] is what [useWebSocket(unitId)] returned to this render. *)
Record state := State {
  data : value;
  hook : useWebSocket.state;
}.

Definition liveTel (st : state) : value := lastMessage (hook st).

(** [liveTel?.unit_status ?? data?.status ?? "IDLE"] *)
Definition status (st : state) : value :=
  coalesce (get_opt (liveTel st) "unit_status")
           (coalesce (get_opt (data st) "status") (VStr "IDLE")).

(** The props of [<CriticalOverlay>]: [visible={!!criticalEvent}] and
    [telemetry={criticalEvent ?? liveTel}]. *)
Definition visible (st : state) : bool :=
  to_boolean (criticalEvent (hook st)).

Definition telemetry (st : state) : value :=
  coalesce (criticalEvent (hook st)) (liveTel st).

Definition setData (v : value) : action state unit :=
  modify (λ st, State v (hook st)).

Definition on_hook {A} (a : action useWebSocket.state A) : action state A :=
  λ st, let '(r, h) := a (hook st) in (r, State (data st) h).

Definition handleDismissOverlay : action state unit :=
  setData VNull >>
  on_hook dismissCritical >>
  on_hook clearSolution >>
  on_hook resetStreamingLogs.

(** A frame reaches the app through the hook. *)
Definition receive (evt_data : frame) (st : state) : state :=
  exec (on_hook (onmessage evt_data)) st.

(** *** [runOrchestration]

    An [async] function runs up to its first [await] when it is called and
    goes on when the awaited promise settles; what else happens in between
    happens to the state in between.  [loading] and [error] are the two
    [useState] values the function writes besides [data]. *)

(** A settled [fetch]: the response, with how [res.json()] settles. *)
Record response := Response {
  ok : bool;
  http_status : Z;
  json : completion value;
}.

Record page := Page {
  core : state;
  loading : bool;
  error : value;
}.

Definition setLoading (b : bool) : action page unit :=
  modify (λ p, Page (core p) b (error p)).

Definition setError (v : value) : action page unit :=
  modify (λ p, Page (core p) (loading p) v).

Definition on_core {A} (a : action state A) : action page A :=
  λ p, let '(r, c) := a (core p) in (r, Page c (loading p) (error p)).

(** Up to [await fetch(...)]. *)
Definition runOrchestration_begin : action page unit :=
  setLoading true >>
  setError VNull.

(** From there to the end, [outcome] being how the [fetch] settled. *)
Definition runOrchestration_settle (outcome : completion response)
  : action page unit :=
  try_finally
    (try_catch
       (let* res := eval outcome in
        if negb (ok res)
        then eval (Throw (Rejected (Error ("API " +:+ pretty (http_status res)))))
        else
          let* body := eval (json res) in
          on_core (setData body))
       (λ e,
          let* text := eval (message e) in
          setError text))
    (setLoading false).

(** A frame reaches the page through the hook. *)
Definition receive_on_page (evt_data : frame) (p : page) : page :=
  Page (receive evt_data (core p)) (loading p) (error p).

End App.

(** ** components/CriticalOverlay.jsx *)

Module CriticalOverlay.

(** How [fetch("/api/system-resume", { method: "POST" })] ends: the
    promise rejects, or it resolves to a response whose [text()] in turn
    resolves or rejects. *)
Inductive response := Response {
  ok : bool;
  http_status : Z;
  text : completion string;
}.

Definition fetch_outcome : Type := completion response.

(** The app state and what [console.error] printed, oldest first. *)
Record state := State {
  app : App.state;
  console : list (list value);
}.

Definition console_error (args : list value) : action state unit :=
  modify (λ st, State (app st) (console st ++ [args])).

(** [onDismiss] is [handleDismissOverlay] of the app. *)
Definition onDismiss : action state unit :=
  λ st, let '(r, a) := App.handleDismissOverlay (app st) in
        (r, State a (console st)).

Definition handleAccept (outcome : fetch_outcome) : action state unit :=
  try_catch
    (let* res := eval outcome in
     if negb (ok res) then
       let* body := eval (text res) in
       console_error [VStr "[handleAccept] system-resume failed:";
                      num (http_status res); VStr body]
     else ret ())
    (λ err,
       console_error [VStr "[handleAccept] system-resume error:";
                      exn_value err]) >>
  onDismiss.

(** What the overlay derives from its props. *)

(** [agentSolution?.decision ?? null] *)
Definition decision (agentSolution : value) : value :=
  coalesce (get_opt agentSolution "decision") VNull.

(** [streamingLogs?.length > 0 && !decision] *)
Definition solving (streamingLogs : list value) (agentSolution : value) : bool :=
  bool_decide (0 < length streamingLogs)%nat
  && negb (to_boolean (decision agentSolution)).

(** The line under the title:
    [decision ? "MCP AGENT SWARM — PROPOSED FIX"
              : solving ? "AGENTS ANALYZING…"
                        : "AUTONOMOUS SYSTEM RESPONSE REQUIRED"]. *)
Definition subtitle (streamingLogs : list value) (agentSolution : value)
  : string :=
  if to_boolean (decision agentSolution)
  then "MCP AGENT SWARM — PROPOSED FIX"
  else if solving streamingLogs agentSolution
       then "AGENTS ANALYZING…"
       else "AUTONOMOUS SYSTEM RESPONSE REQUIRED".

(** The four readings of the overlay:
    [telemetry?.rul ?? "—"], [telemetry?.vibration ?? "—"],
    [telemetry?.unit_id ?? "UNKNOWN"], [telemetry?.cycle ?? "—"]. *)
Definition rul (telemetry : value) : value :=
  coalesce (get_opt telemetry "rul") (VStr "—").

Definition vibration (telemetry : value) : value :=
  coalesce (get_opt telemetry "vibration") (VStr "—").

Definition unitId (telemetry : value) : value :=
  coalesce (get_opt telemetry "unit_id") (VStr "UNKNOWN").

Definition cycle (telemetry : value) : value :=
  coalesce (get_opt telemetry "cycle") (VStr "—").

(** The button shown while no decision is held:
    [onClick={() => { onOrchestrate?.(); onDismiss(); }}], where
    [onOrchestrate] is [runOrchestration] of the app; the call returns at
    its first [await]. *)
Definition onRunOrchestration : action App.page unit :=
  App.runOrchestration_begin >>
  App.on_core App.handleDismissOverlay.

(** [String.prototype.padStart(targetLength, "0")] *)
Definition padStart (targetLength : nat) (s : string) : string :=
  String.concat "" (replicate (targetLength - String.length s) "0") +:+ s.

(** [fmtTime], on a whole number of seconds: [Math.floor(s / 60)] is the
    quotient rounded down and [s % 60] has the sign of [s]. *)
Definition fmtTime (s : Z) : string :=
  let m := s `div` 60 in
  let sec := s `rem` 60 in
  if bool_decide (0 < m)
  then pretty m +:+ "m " +:+ padStart 2 (pretty sec) +:+ "s"
  else pretty sec +:+ "s".

End CriticalOverlay.

(** ** components/ReasoningLog.jsx *)

Module ReasoningLog.

(** [finishedSteps] holds the identifiers whose typewriter animation is
    over; [prevLogsLen] is the ref. *)
Record state := State {
  finishedSteps : list value;
  prevLogsLen : nat;
}.

Definition initial : state := State [] 0.

(** The effect on [logs.length], the length of the list shown at this
    render:
    [if (logs.length < prevLogsLen.current) setFinishedSteps(new Set());
     prevLogsLen.current = logs.length]. *)
Definition effect (logs_length : nat) (st : state) : state :=
  State (if bool_decide (logs_length < prevLogsLen st)%nat
         then [] else finishedSteps st)
        logs_length.

End ReasoningLog.

(** The typewriter of a step's text, in the same file.  [text] is the
    sequence of the code units of the string. *)
Module TypewriterText.

Section text.

Context {U : Type}.

(** [displayed] and [idx.current]; whether the interval is running; how
    many times [onComplete] was called. *)
Record state := State {
  displayed : list U;
  idx : nat;
  running : bool;
  completed : nat;
}.

(** The effect on [text]: [setDisplayed(""); idx.current = 0;
    if (!text) return; timerRef.current = setInterval(...)]. *)
Definition effect (text : list U) (st : state) : state :=
  State [] 0 (bool_decide (text ≠ [])) (completed st).

(** One run of the interval's callback, if the interval is running:
    [idx.current += 1; setDisplayed(text.slice(0, idx.current));
     if (idx.current >= text.length) { clearInterval(...); onComplete?.() }]. *)
Definition tick (text : list U) (st : state) : option state :=
  if running st then
    let i := S (idx st) in
    if bool_decide (length text ≤ i)%nat
    then Some (State (take i text) i false (S (completed st)))
    else Some (State (take i text) i true (completed st))
  else None.

Fixpoint ticks (n : nat) (text : list U) (st : state) : option state :=
  match n with
  | O => Some st
  | S n => st' ← tick text st; ticks n text st'
  end.

End text.

Arguments state : clear implicits.

End TypewriterText.

(** ** components/Header.jsx *)

Module Header.

Record state := State {
  units : value;
  fetching : bool;
}.

Definition initial : state := State (VArr []) false.

Definition setUnits (v : value) : action state unit :=
  modify (λ st, State v (fetching st)).

Definition setFetching (b : bool) : action state unit :=
  modify (λ st, State (units st) b).

(** [load], up to [await fetch(...)]. *)
Definition load_begin : action state unit := setFetching true.

(** [load], from there to the end. *)
Definition load_settle (outcome : completion App.response)
  : action state unit :=
  try_catch
    (let* res := eval outcome in
     if App.ok res then
       let* data := eval (App.json res) in
       let* listed := eval (get data "units") in
       setUnits (or_else listed (VArr []))
     else ret ())
    (λ _, ret ()) >>
  setFetching false.

End Header.

(** ** components/ChatPanel.jsx *)

(** The transcript and [send].  The two flash flags only drive a border
    animation and are left out. *)
Module ChatPanel.

(** The text of a message: a value put there as it is, or
    [`Error: ${e.message}`]. *)
Inductive text :=
  | Plain (v : value)
  | ErrorText (message : value).

Record message := Message {
  role : string;
  body : text;
}.

(** [overrides] counts the calls of [onOverride]. *)
Record state := State {
  messages : list message;
  input : string;
  sending : bool;
  overrides : nat;
}.

Definition append (m : message) : action state unit :=
  modify (λ st, State (messages st ++ [m]) (input st) (sending st)
                      (overrides st)).

Definition setInput (s : string) : action state unit :=
  modify (λ st, State (messages st) s (sending st) (overrides st)).

Definition setSending (b : bool) : action state unit :=
  modify (λ st, State (messages st) (input st) b (overrides st)).

Definition onOverride : action state unit :=
  modify (λ st, State (messages st) (input st) (sending st)
                      (S (overrides st))).

Section send.

(** [String.prototype.trim] *)
Variable trim : string → string.

(** [send], up to [await fetch(...)]: the message posted, if one is. *)
Definition send_begin : action state (option string) :=
  λ st,
    let msg := trim (input st) in
    if negb (to_boolean (VStr msg)) || sending st then (Normal None, st)
    else
      (append (Message "user" (Plain (VStr msg))) >>
       setInput "" >>
       setSending true >>
       ret (Some msg)) st.

End send.

(** [send], from there to the end.  [res.ok] is not looked at. *)
Definition send_settle (outcome : completion App.response)
  : action state unit :=
  try_finally
    (try_catch
       (let* res := eval outcome in
        let* data := eval (App.json res) in
        let* override_active := eval (get data "override_active") in
        if to_boolean override_active then
          let* reply := eval (get data "reply") in
          append (Message "override"
                    (Plain (or_else reply (VStr "⚠️ HUMAN OVERRIDE ACTIVATED")))) >>
          onOverride
        else
          let* reply := eval (get data "reply") in
          append (Message "agent"
                    (Plain (or_else reply (VStr "No response.")))))
       (λ e,
          let* text := eval (JS.message e) in
          append (Message "agent" (ErrorText text))))
    (setSending false).

End ChatPanel.

(** * The vocabulary of the statements *)

Import useWebSocket.

(** An object literal. *)
Definition object (fields : list (string * value)) : value :=
  VObj (list_to_map fields).

(** The frames of the last branch: JSON other than [null] whose [type] is
    none of the four the router names.  The stream's telemetry ticks,
    which carry no [type], are such frames. *)
Definition untyped (data : value) : Prop :=
  nullish data = false ∧
  ∀ name, name ∈ ["mcp_step"; "solution"; "alert"; "system_resumed"] →
          own_property data "type" ≠ VStr name.

Definition receive_all (frames : list frame) (st : state) : state :=
  foldl (λ st evt_data, exec (onmessage evt_data) st) st frames.

(** The timeline accumulated from an empty one over the frames [datas]. *)
Definition timeline (datas : list value) : list value :=
  streamingLogs (receive_all (Json <$> datas) initial).

Definition mcp_step (data : value) : Prop :=
  own_property data "type" = VStr "mcp_step".

Definition receive_ticks (ticks : list value) (st : App.state) : App.state :=
  foldl (λ st tick, App.receive (Json tick) st) st ticks.

(** What [handleAccept] prints for an outcome of the request. *)
Definition resume_report (outcome : CriticalOverlay.fetch_outcome) : list (list value) :=
  match outcome with
  | Normal res =>
      if CriticalOverlay.ok res then []
      else
        match CriticalOverlay.text res with
        | Normal body =>
            [[VStr "[handleAccept] system-resume failed:";
              num (CriticalOverlay.http_status res); VStr body]]
        | Throw err =>
            [[VStr "[handleAccept] system-resume error:"; exn_value err]]
        end
  | Throw err =>
      [[VStr "[handleAccept] system-resume error:"; exn_value err]]
  end.

Definition succeeded (outcome : CriticalOverlay.fetch_outcome) : bool :=
  match outcome with
  | Normal res => CriticalOverlay.ok res
  | Throw _ => false
  end.

(** [n] attempts in a row that end in a close, each followed by the
    timeout that starts the next one.  Sockets and timeouts are numbered
    from 0 in the order they are made. *)
Definition failures (failed : nat → bool) (n : nat) : list event :=
  flat_map (λ i, [SocketClose i (failed i); TimerFire i]) (seq 0 n).

(** The session once [n] attempts have failed and the next is under way. *)
Definition retrying (u : string) (n : nat) : session :=
  Session initial (Some n)
          (match n with O => None | S k => Some k end)
          (Z.of_nat n)
          (replicate n (Socket u CLOSED) ++ [Socket u CONNECTING])
          ∅ n.

(** The session when attempt [n] (from 0) has just closed. *)
Definition waiting (u : string) (n : nat) : session :=
  Session initial (Some n) (Some n) (Z.of_nat n + 1)
          (replicate (S n) (Socket u CLOSED))
          {[ n := Timeout (backoff (Z.of_nat n)) u ]} (S n).

(** No pending timeout waits longer than the cap. *)
Definition delays_bounded (s : session) : Prop :=
  ∀ id t, timeouts s !! id = Some t → delay t ≤ 30000.

(** [data.isError || data.severity === "critical"] as a value of [data]. *)
Definition qualifying (data : value) : bool :=
  to_boolean (own_property data "isError")
  || strict_equals (own_property data "severity") (VStr "critical").

(** The routes of [onmessage]: what a frame does to the state, by the
    branch that takes it. *)
Inductive routes (st : state) : frame → state → Prop :=
  | drop_malformed text :
      routes st (Malformed text) st
  | drop_nullish d :
      nullish d = true →
      routes st (Json d) st
  | to_timeline d :
      own_property d "type" = VStr "mcp_step" →
      routes st (Json d)
        (State (lastMessage st) (lastAlert st) (connected st) (criticalEvent st)
               (append_step d (streamingLogs st)) (agentSolution st))
  | to_solution d :
      own_property d "type" = VStr "solution" →
      routes st (Json d)
        (State (lastMessage st) (lastAlert st) (connected st) (criticalEvent st)
               (streamingLogs st) d)
  | to_alert d :
      own_property d "type" = VStr "alert" →
      routes st (Json d)
        (State (lastMessage st) d (connected st)
               (if qualifying d then d else criticalEvent st)
               (streamingLogs st) (agentSolution st))
  | to_reset d :
      own_property d "type" = VStr "system_resumed" →
      routes st (Json d)
        (State VNull (lastAlert st) (connected st) VNull [] VNull)
  | to_live_tick d :
      untyped d →
      routes st (Json d)
        (State d (lastAlert st) (connected st) (criticalEvent st)
               (streamingLogs st) (agentSolution st)).

(** What can happen to the state of the hook: a frame arrives, or the app
    calls one of the three callbacks the hook returns. *)
Inductive hook_op :=
  | Receive (evt_data : frame)
  | DismissCritical
  | ResetStreamingLogs
  | ClearSolution.

Definition apply_op (st : state) (op : hook_op) : state :=
  match op with
  | Receive evt_data => exec (onmessage evt_data) st
  | DismissCritical => exec dismissCritical st
  | ResetStreamingLogs => exec resetStreamingLogs st
  | ClearSolution => exec clearSolution st
  end.

Definition apply_ops (ops : list hook_op) (st : state) : state :=
  foldl apply_op st ops.

(** Every slice of the state holds what its route puts there. *)
Definition well_typed (st : state) : Prop :=
  (criticalEvent st = VNull
   ∨ (own_property (criticalEvent st) "type" = VStr "alert"
      ∧ qualifying (criticalEvent st) = true
      ∧ lastAlert st ≠ VNull))
  ∧ (lastAlert st = VNull ∨ own_property (lastAlert st) "type" = VStr "alert")
  ∧ (agentSolution st = VNull
     ∨ own_property (agentSolution st) "type" = VStr "solution")
  ∧ (lastMessage st = VNull ∨ untyped (lastMessage st))
  ∧ Forall mcp_step (streamingLogs st).

(** A frame of one of the two types that replace or clear the solution. *)
Definition ends_solution (evt_data : frame) : Prop :=
  ∃ d, evt_data = Json d
       ∧ (own_property d "type" = VStr "solution"
          ∨ own_property d "type" = VStr "system_resumed").

(** The events the browser raises, as opposed to those of React. *)
Definition browser_event (e : event) : Prop :=
  match e with
  | ChangeUnit _ | Unmount => False
  | _ => True
  end.

(** One socket is connecting or open, [wsRef] holds it, it is one for [u],
    every other socket is closed and no timeout is pending. *)
Definition one_live_socket (u : string) (s : session) : Prop :=
  timeouts s = ∅
  ∧ ∃ w k, wsRef s = Some w
           ∧ sockets s !! w = Some k
           ∧ ready k ≠ CLOSED
           ∧ unit_of k = u
           ∧ ∀ i k', i ≠ w → sockets s !! i = Some k' → ready k' = CLOSED.

(** Every socket is closed and one timeout is pending, the one [timer]
    holds; it will reconnect to [u]. *)
Definition one_pending_timer (u : string) (s : session) : Prop :=
  Forall (λ k, ready k = CLOSED) (sockets s)
  ∧ ∃ id ms, timer s = Some id ∧ timeouts s = {[ id := Timeout ms u ]}.

(** The retry counter is not negative and no pending reconnect is due in
    less than two seconds. *)
Definition no_hot_loop (s : session) : Prop :=
  0 ≤ tries s ∧ ∀ id t, timeouts s !! id = Some t → 2000 ≤ delay t.

(** What [fmtTime] writes after the minutes. *)
Definition seconds_field (sec : Z) : string :=
  "m " +:+ CriticalOverlay.padStart 2 (pretty sec) +:+ "s".

(** Frames of the shapes the backend sends, and one it does not. *)
Module Sample.

Definition mcp (id : value) (agent event : string) : value :=
  object [("type", VStr "mcp_step"); ("step", id);
          ("agent", VStr agent); ("event", VStr event)].

Definition tick (rul : Z) (unit_status : string) : value :=
  object [("unit_id", VStr "ENGINE-001"); ("cycle", num 42);
          ("rul", num rul); ("vibration", num 0);
          ("unit_status", VStr unit_status)].

Definition alert : value :=
  object [("type", VStr "alert"); ("unit_id", VStr "ENGINE-001");
          ("message", VStr "RUL reached 0"); ("severity", VStr "critical");
          ("isError", VBool true); ("rul", num 0)].

Definition resumed : value := object [("type", VStr "system_resumed")].

Definition heartbeat : value := object [("type", VStr "heartbeat")].

(** What GET /orchestrate/{unit} answered during an incident. *)
Definition snapshot : value := object [("status", VStr "CRITICAL")].

(** A dashboard showing a healthy unit. *)
Definition healthy : state :=
  State (tick 120 "HEALTHY") VNull true VNull [] VNull.

(** Three steps of a run are held. *)
Definition run_A : list value :=
  [mcp (num 1) "Watchman" "Querying telemetry";
   mcp (num 2) "Foreman" "Building context";
   mcp (num 3) "Inventory" "Checking stock"].

Definition solving : state :=
  State (tick 0 "CRITICAL") alert true alert run_A VNull.

(** An alert that is only a notice. *)
Definition notice : value :=
  object [("type", VStr "alert"); ("unit_id", VStr "ENGINE-001");
          ("message", VStr "Maintenance window opens at 0600");
          ("severity", VStr "info"); ("isError", VBool false)].

Definition solution : value :=
  object [("type", VStr "solution");
          ("decision",
           object [("drl_decision",
                    object [("action", num 1);
                            ("label", VStr "APPROVE_EXPRESS_SHIPPING")])])].

(** A critical alert that carries no reading of its own. *)
Definition bare_alert : value :=
  object [("type", VStr "alert"); ("unit_id", VStr "ENGINE-001");
          ("message", VStr "Failure injected"); ("severity", VStr "critical");
          ("isError", VBool true)].

(** The chat with "status" typed in and no request under way. *)
Definition chat : ChatPanel.state :=
  ChatPanel.State
    [ChatPanel.Message "system" (ChatPanel.Plain (VStr "GANTRY supervisor online."))]
    "status" false 0.

End Sample.

(** * Properties *)

(** ** Values *)

Section values.

Implicit Types a b v : value.

Lemma strict_equals_true a b : strict_equals a b = true → a = b.
Proof.
  destruct a, b; simpl; try discriminate; try done;
    intros H%bool_decide_eq_true; by subst.
Qed.

(** On a scalar, [===] is equality of values. *)
Lemma strict_equals_scalar a b :
  scalar b = true → strict_equals a b = true ↔ a = b.
Proof.
  intros Hb. split; [apply strict_equals_true|].
  intros ->. destruct b; simpl in *; try done; by apply bool_decide_eq_true.
Qed.

(** A composite value is [===] to nothing that was parsed separately. *)
Lemma strict_equals_composite a b :
  scalar b = false → strict_equals a b = false.
Proof. destruct b; try done; by destruct a. Qed.

(** A value with a defined property is an object. *)
Lemma own_property_object v k :
  own_property v k ≠ VUndefined → ∃ fields, v = VObj fields.
Proof. destruct v; simpl; try done. eauto. Qed.

Lemma has_type_object v name :
  own_property v "type" = VStr name → ∃ fields, v = VObj fields.
Proof. intros H. apply (own_property_object v "type"). by rewrite H. Qed.

Lemma has_type_not_nullish v name :
  own_property v "type" = VStr name → nullish v = false.
Proof. by intros [? ->]%has_type_object. Qed.

Lemma has_type_truthy v name :
  own_property v "type" = VStr name → to_boolean v = true.
Proof. by intros [? ->]%has_type_object. Qed.

Lemma coalesce_not_nullish a b : nullish a = false → coalesce a b = a.
Proof. unfold coalesce. by intros ->. Qed.

End values.

(** ** The message router *)

(** Reads [data.type] in [onmessage] for a frame whose type is known. *)
Ltac route H :=
  let Hn := fresh in
  intros H; pose proof (has_type_not_nullish _ _ H) as Hn;
  unfold onmessage, try_catch, bind, type_is, eval, get, JSON_parse;
  rewrite Hn, H; simpl.

Section router.

Implicit Types (st : state) (data : value).

Lemma onmessage_mcp_step data st :
  own_property data "type" = VStr "mcp_step" →
  onmessage (Json data) st = setStreamingLogs (append_step data) st.
Proof. route H. done. Qed.

Lemma onmessage_solution data st :
  own_property data "type" = VStr "solution" →
  onmessage (Json data) st = setAgentSolution data st.
Proof. route H. done. Qed.

Lemma onmessage_alert data st :
  own_property data "type" = VStr "alert" →
  onmessage (Json data) st =
    (Normal (),
     State (lastMessage st) data (connected st)
           (if to_boolean (own_property data "isError")
               || strict_equals (own_property data "severity") (VStr "critical")
            then data else criticalEvent st)
           (streamingLogs st) (agentSolution st)).
Proof.
  route H. unfold qualifies, bind, eval, get.
  rewrite (has_type_not_nullish _ _ H). simpl.
  destruct (to_boolean (own_property data "isError")); simpl; [done|].
  by destruct (strict_equals _ _).
Qed.

Lemma onmessage_system_resumed data st :
  own_property data "type" = VStr "system_resumed" →
  onmessage (Json data) st =
    (Normal (), State VNull (lastAlert st) (connected st) VNull [] VNull).
Proof. route H. done. Qed.

Lemma onmessage_untyped data st :
  untyped data →
  onmessage (Json data) st = setLastMessage data st.
Proof.
  intros [Hn Ht].
  unfold onmessage, try_catch, bind, type_is, eval, get, JSON_parse.
  rewrite Hn. simpl.
  assert (∀ name, name ∈ ["mcp_step"; "solution"; "alert"; "system_resumed"] →
            strict_equals (own_property data "type") (VStr name) = false) as Hf.
  { intros name Hin. apply not_true_is_false.
    intros Heq%strict_equals_true. by apply (Ht name). }
  rewrite !Hf by set_solver. done.
Qed.

Lemma onmessage_nullish data st :
  nullish data = true → onmessage (Json data) st = (Normal (), st).
Proof.
  intros Hn. unfold onmessage, try_catch, bind, type_is, eval, get, JSON_parse.
  by rewrite Hn.
Qed.

Lemma onmessage_malformed text st :
  onmessage (Malformed text) st = (Normal (), st).
Proof. done. Qed.

(** C6.  A frame that [JSON.parse] rejects is dropped: the handler ends
    normally with every field of the state as it was, and the session it
    arrived in is unchanged as a whole, so its socket is still open, no
    reconnect is scheduled and no socket is made. *)
Theorem malformed_frame_dropped (s : session) (ws : nat) k text :
  sockets s !! ws = Some k →
  ready k = OPEN →
  onmessage (Malformed text) (view s) = (Normal (), view s)
  ∧ step s (SocketMessage ws (Malformed text)) = Some s.
Proof.
  intros Hk Hopen. split; [done|].
  unfold step. rewrite Hk. simpl. rewrite decide_True by done.
  by destruct s.
Qed.

End router.

(** ** The step timeline *)

Section timeline.

Implicit Types (st : state) (data d : value) (prev datas : list value).

Lemma existsb_elem_of {A} (f : A → bool) (l : list A) :
  existsb f l = true ↔ ∃ x, x ∈ l ∧ f x = true.
Proof.
  rewrite existsb_exists. by setoid_rewrite list_elem_of_In.
Qed.

Lemma append_step_cases d prev :
  append_step d prev = prev ∨ append_step d prev = prev ++ [d].
Proof. unfold append_step. destruct (existsb _ _); auto. Qed.

Lemma append_step_held d prev :
  scalar (step_of d) = true →
  step_of d ∈ step_of <$> prev →
  append_step d prev = prev.
Proof.
  intros Hs (s & Heq & Hin)%list_elem_of_fmap. unfold append_step.
  destruct (existsb _ _) eqn:He; [done|].
  apply not_true_iff_false in He. destruct He.
  apply existsb_elem_of. exists s. split; [done|].
  by apply strict_equals_scalar.
Qed.

Lemma append_step_new d prev :
  step_of d ∉ step_of <$> prev →
  append_step d prev = prev ++ [d].
Proof.
  intros Hnew. unfold append_step.
  destruct (existsb _ _) eqn:He; [|done].
  apply existsb_elem_of in He as (s & Hin & Heq%strict_equals_true).
  destruct Hnew. rewrite <- Heq. by apply list_elem_of_fmap_2.
Qed.

(** A step whose identifier is an array or an object is always put at the
    end, whatever is held. *)
Lemma append_step_composite d prev :
  scalar (step_of d) = false →
  append_step d prev = prev ++ [d].
Proof.
  intros Hc. unfold append_step.
  destruct (existsb _ _) eqn:He; [|done].
  apply existsb_elem_of in He as (s & _ & Heq).
  by rewrite strict_equals_composite in Heq.
Qed.

Lemma receive_mcp_step d st :
  mcp_step d →
  streamingLogs (exec (onmessage (Json d)) st) = append_step d (streamingLogs st).
Proof. intros H. unfold exec. by rewrite onmessage_mcp_step. Qed.

Lemma receive_held d st :
  mcp_step d →
  scalar (step_of d) = true →
  step_of d ∈ step_of <$> streamingLogs st →
  exec (onmessage (Json d)) st = st.
Proof.
  intros H Hs Hin. unfold exec. rewrite onmessage_mcp_step by done.
  unfold setStreamingLogs, modify. simpl.
  rewrite append_step_held by done. by destruct st.
Qed.

Lemma timeline_snoc datas d :
  mcp_step d →
  timeline (datas ++ [d]) = append_step d (timeline datas).
Proof.
  intros H. unfold timeline, receive_all.
  rewrite fmap_app, foldl_app. simpl. by apply receive_mcp_step.
Qed.

Lemma timeline_prefix datas post :
  Forall mcp_step post →
  timeline datas `prefix_of` timeline (datas ++ post).
Proof.
  induction post as [|d post IH] using rev_ind; intros Hall.
  - by rewrite app_nil_r.
  - apply Forall_app in Hall as [Hpost [Hd _]%Forall_cons].
    rewrite app_assoc, timeline_snoc by done.
    etrans; [by apply IH|].
    destruct (append_step_cases d (timeline (datas ++ post))) as [-> | ->];
      [done | by apply prefix_app_r].
Qed.

Lemma timeline_sublist datas :
  Forall mcp_step datas → timeline datas `sublist_of` datas.
Proof.
  induction datas as [|d datas IH] using rev_ind; intros Hall; [done|].
  apply Forall_app in Hall as [Hdatas [Hd _]%Forall_cons].
  rewrite timeline_snoc by done.
  destruct (append_step_cases d (timeline datas)) as [-> | ->].
  - by apply sublist_inserts_r, IH.
  - by apply sublist_app; [apply IH|].
Qed.

Lemma held_or_new d prev :
  scalar (step_of d) = true →
  step_of d ∈ step_of <$> prev ∨ step_of d ∉ step_of <$> prev.
Proof.
  intros Hs.
  destruct (existsb (λ s, strict_equals (step_of s) (step_of d)) prev) eqn:He.
  - left. apply existsb_elem_of in He as (s & Hin & Heq%strict_equals_true).
    rewrite <- Heq. by apply list_elem_of_fmap_2.
  - right. intros (s & Heq & Hin)%list_elem_of_fmap.
    apply not_true_iff_false in He. destruct He.
    apply existsb_elem_of. exists s. split; [done|].
    by apply strict_equals_scalar.
Qed.

Lemma timeline_identifiers datas :
  Forall (λ d, mcp_step d ∧ scalar (step_of d) = true) datas →
  NoDup (step_of <$> timeline datas) ∧
  ∀ x, x ∈ step_of <$> timeline datas ↔ x ∈ step_of <$> datas.
Proof.
  induction datas as [|d datas IH] using rev_ind; intros Hall.
  - split; [constructor | done].
  - apply Forall_app in Hall as [Hdatas [[Hd Hs] _]%Forall_cons].
    destruct (IH Hdatas) as [Hnd Hids].
    rewrite timeline_snoc by done. rewrite (fmap_app _ datas).
    destruct (held_or_new d (timeline datas) Hs) as [Hin | Hout].
    + rewrite append_step_held by done. split; [done|].
      intros x. rewrite elem_of_app, <- Hids. simpl.
      rewrite list_elem_of_singleton. split; [auto|].
      by intros [? | ->].
    + rewrite append_step_new by done. rewrite fmap_app. split.
      * apply NoDup_app. split_and!; [done | | apply NoDup_singleton].
        intros x Hx ->%list_elem_of_singleton. done.
      * intros x. rewrite !elem_of_app. by rewrite Hids.
Qed.

(** C1 (as amended).  For mcp_step frames whose step identifiers are JSON
    scalars (a string, a number, a boolean, null) or absent, the timeline
    accumulated from an empty one holds every identifier that arrived
    exactly once, and in the order of first arrival: it is made of frames
    that arrived, in their order, it only grows, a frame whose identifier
    arrived before changes nothing and a frame with a new identifier is
    put at the end.  A step whose identifier is held leaves the whole
    state as it was. *)
Theorem timeline_exactly_once_first_arrival datas :
  Forall (λ d, mcp_step d ∧ scalar (step_of d) = true) datas →
  NoDup (step_of <$> timeline datas)
  ∧ (∀ d, d ∈ datas → step_of d ∈ step_of <$> timeline datas)
  ∧ timeline datas `sublist_of` datas
  ∧ (∀ pre d post, datas = pre ++ d :: post →
       timeline pre `prefix_of` timeline datas
       ∧ (step_of d ∈ step_of <$> pre → timeline (pre ++ [d]) = timeline pre)
       ∧ (step_of d ∉ step_of <$> pre →
            timeline (pre ++ [d]) = timeline pre ++ [d]))
  ∧ (∀ d st, d ∈ datas →
       step_of d ∈ step_of <$> streamingLogs st →
       exec (onmessage (Json d)) st = st).
Proof.
  intros Hall.
  assert (Forall mcp_step datas) as Hsteps.
  { eapply Forall_impl; [done|]. by intros ? [? _]. }
  destruct (timeline_identifiers datas Hall) as [Hnd Hids].
  split_and!; [done | | by apply timeline_sublist | |].
  - intros d Hd. apply Hids. by apply list_elem_of_fmap_2.
  - intros pre d post ->.
    apply Forall_app in Hall as [Hpre [[Hd Hs] _]%Forall_cons].
    apply Forall_app in Hsteps as [_ Hrest].
    destruct (timeline_identifiers pre Hpre) as [_ Hpids].
    split_and!.
    + by apply timeline_prefix.
    + intros Hin. rewrite timeline_snoc by done.
      apply append_step_held; [done|]. by apply Hpids.
    + intros Hout. rewrite timeline_snoc by done.
      apply append_step_new. by rewrite Hpids.
  - intros d st Hd Hin.
    rewrite Forall_forall in Hall. destruct (Hall d Hd) as [Hm Hs].
    by apply receive_held.
Qed.

(** What one frame can do to the timeline: nothing, empty it (the frame is
    system_resumed), or put itself at the end (it is an mcp_step). *)
Lemma timeline_changes evt_data st :
  let after := streamingLogs (exec (onmessage evt_data) st) in
  after = streamingLogs st
  ∨ (after = []
     ∧ ∃ d, evt_data = Json d ∧ own_property d "type" = VStr "system_resumed")
  ∨ (∃ d, evt_data = Json d ∧ mcp_step d ∧ after = streamingLogs st ++ [d]).
Proof.
  intros after. subst after. destruct evt_data as [text | d]; [by left|].
  unfold exec.
  destruct (nullish d) eqn:Hn; [left; by rewrite onmessage_nullish|].
  destruct (strict_equals (own_property d "type") (VStr "mcp_step")) eqn:H1.
  { apply strict_equals_true in H1. rewrite onmessage_mcp_step by done. simpl.
    destruct (append_step_cases d (streamingLogs st)) as [-> | ->];
      [by left | right; right; by exists d]. }
  destruct (strict_equals (own_property d "type") (VStr "solution")) eqn:H2.
  { apply strict_equals_true in H2. left. by rewrite onmessage_solution. }
  destruct (strict_equals (own_property d "type") (VStr "alert")) eqn:H3.
  { apply strict_equals_true in H3. left. by rewrite onmessage_alert. }
  destruct (strict_equals (own_property d "type") (VStr "system_resumed")) eqn:H4.
  { apply strict_equals_true in H4. right; left.
    rewrite onmessage_system_resumed by done. split; [done|]. by exists d. }
  left. rewrite onmessage_untyped; [done|]. split; [done|].
  intros name Hin Heq. rewrite Heq in H1, H2, H3, H4. simpl in *.
  repeat (apply elem_of_cons in Hin as [-> | Hin];
          [by rewrite bool_decide_eq_true_2 in * |]).
  by apply elem_of_nil in Hin.
Qed.

(** Every held step is a frame of type mcp_step, hence an object. *)
Lemma held_steps_typed frames :
  Forall mcp_step (streamingLogs (receive_all frames initial)).
Proof.
  induction frames as [|evt_data frames IH] using rev_ind; [constructor|].
  unfold receive_all in *. rewrite foldl_app. simpl.
  destruct (timeline_changes evt_data (foldl
    (λ st evt_data, exec (onmessage evt_data) st) initial frames))
    as [-> | [[-> _] | (d & _ & Hd & ->)]]; [done | constructor |].
  apply Forall_app. split; [done|]. by constructor.
Qed.

(** C7 (as amended).  An incoming step never clears the held timeline:
    the timeline before it is a prefix of the timeline after it, which is
    the same timeline or that timeline with the step at its end; the only
    frame that empties a timeline is system_resumed.  The comparison of
    lengths made on each update is the one of the reasoning log: when the
    list shown became shorter it empties the set of steps whose animation
    has finished, and it records the new length. *)
Theorem step_keeps_held_timeline (st : state) d
    (rl : ReasoningLog.state) (logs_length : nat) :
  mcp_step d →
  let st' := exec (onmessage (Json d)) st in
  streamingLogs st `prefix_of` streamingLogs st'
  ∧ (streamingLogs st' = streamingLogs st
     ∨ streamingLogs st' = streamingLogs st ++ [d])
  ∧ (∀ evt_data,
       streamingLogs st ≠ [] →
       streamingLogs (exec (onmessage evt_data) st) = [] →
       ∃ d', evt_data = Json d'
             ∧ own_property d' "type" = VStr "system_resumed")
  ∧ ReasoningLog.finishedSteps (ReasoningLog.effect logs_length rl) =
      (if bool_decide (logs_length < ReasoningLog.prevLogsLen rl)%nat
       then [] else ReasoningLog.finishedSteps rl)
  ∧ ReasoningLog.prevLogsLen (ReasoningLog.effect logs_length rl) =
      logs_length.
Proof.
  intros Hd st'. unfold st'. rewrite receive_mcp_step by done.
  split_and!; try done.
  - destruct (append_step_cases d (streamingLogs st)) as [-> | ->];
      [done | by apply prefix_app_r].
  - apply append_step_cases.
  - intros evt_data Hheld Hempty.
    destruct (timeline_changes evt_data st)
      as [Hsame | [[_ Hres] | (d' & _ & _ & Happ)]]; [| done |].
    + by rewrite Hsame in Hempty.
    + rewrite Happ in Hempty. by destruct (streamingLogs st).
Qed.

End timeline.

(** ** The incident state *)

Section incident.

Implicit Types (st : App.state) (data tick : value).

Lemma receive_hook evt_data st :
  App.hook (App.receive evt_data st) = exec (onmessage evt_data) (App.hook st).
Proof.
  unfold App.receive, exec, App.on_hook.
  by destruct (onmessage evt_data (App.hook st)).
Qed.

Lemma receive_data evt_data st :
  App.data (App.receive evt_data st) = App.data st.
Proof.
  unfold App.receive, exec, App.on_hook.
  by destruct (onmessage evt_data (App.hook st)).
Qed.

Lemma receive_tick_critical tick st :
  untyped tick →
  criticalEvent (App.hook (App.receive (Json tick) st)) =
    criticalEvent (App.hook st).
Proof.
  intros Ht. rewrite receive_hook. unfold exec.
  by rewrite onmessage_untyped.
Qed.

Lemma receive_ticks_critical ticks st :
  Forall untyped ticks →
  criticalEvent (App.hook (receive_ticks ticks st)) =
    criticalEvent (App.hook st).
Proof.
  intros Hall. revert st.
  induction Hall as [|tick ticks Ht _ IH]; intros st; [done|].
  simpl. rewrite IH. by apply receive_tick_critical.
Qed.

(** C3 (as amended).  An alert frame [data] with [isError] true or
    [severity] "critical" puts the state in halt, and what is frozen is
    the payload of that frame, not the telemetry held when it arrived:
    whatever the state [st] before it, [criticalEvent] becomes [data], so
    it is not null, the overlay is visible and shows [data], and the live
    tick of [st] stays where it was, unread by the overlay.  Whatever
    telemetry ticks are processed afterwards, [criticalEvent] is still
    [data], and the four readings of the overlay are the fields of [data],
    with the placeholder for a field that [data] does not carry. *)
Theorem critical_alert_freezes_alert_payload st data ticks :
  own_property data "type" = VStr "alert" →
  own_property data "isError" = VBool true
    ∨ own_property data "severity" = VStr "critical" →
  Forall untyped ticks →
  let halted := App.receive (Json data) st in
  let later := receive_ticks ticks halted in
  (criticalEvent (App.hook halted) = data
   ∧ criticalEvent (App.hook halted) ≠ VNull
   ∧ App.visible halted = true
   ∧ App.telemetry halted = data
   ∧ App.liveTel halted = App.liveTel st)
  ∧ (criticalEvent (App.hook later) = data
     ∧ App.visible later = true
     ∧ App.telemetry later = data)
  ∧ (CriticalOverlay.rul (App.telemetry later) =
       coalesce (own_property data "rul") (VStr "—")
     ∧ CriticalOverlay.vibration (App.telemetry later) =
         coalesce (own_property data "vibration") (VStr "—")
     ∧ CriticalOverlay.unitId (App.telemetry later) =
         coalesce (own_property data "unit_id") (VStr "UNKNOWN")
     ∧ CriticalOverlay.cycle (App.telemetry later) =
         coalesce (own_property data "cycle") (VStr "—")).
Proof.
  intros Htype Hq Hticks halted later.
  assert (App.hook halted =
            State (lastMessage (App.hook st)) data (connected (App.hook st))
                  data (streamingLogs (App.hook st))
                  (agentSolution (App.hook st))) as Hh.
  { unfold halted. rewrite receive_hook. unfold exec.
    rewrite onmessage_alert by done. simpl.
    by destruct Hq as [-> | ->]; [|rewrite orb_true_r]. }
  assert (criticalEvent (App.hook halted) = data) as Hc by by rewrite Hh.
  assert (criticalEvent (App.hook later) = data) as Hl.
  { unfold later. by rewrite receive_ticks_critical. }
  pose proof (has_type_not_nullish _ _ Htype) as Hn.
  pose proof (has_type_truthy _ _ Htype) as Ht.
  assert (App.telemetry later = data) as Hshown.
  { unfold App.telemetry. rewrite Hl. by rewrite coalesce_not_nullish. }
  rewrite Hshown.
  unfold App.visible, App.telemetry, App.liveTel. rewrite Hc, Hl, Hh.
  rewrite !coalesce_not_nullish by done.
  unfold CriticalOverlay.rul, CriticalOverlay.vibration,
    CriticalOverlay.unitId, CriticalOverlay.cycle, get_opt.
  rewrite Hn.
  split_and!; try done. intros ->. done.
Qed.

(** C4 (as amended).  A system_resumed frame ends the halt and clears the
    frozen snapshot, the timeline, the held solution and the live tick;
    the orchestration snapshot [data] of the app stays.  Until the next
    live tick the status is therefore the [status] of that snapshot when
    it has one, and "IDLE" when it has none; the next live tick puts its
    own [unit_status] first. *)
Theorem system_resumed_resets st data :
  own_property data "type" = VStr "system_resumed" →
  let st' := App.receive (Json data) st in
  App.visible st' = false
  ∧ criticalEvent (App.hook st') = VNull
  ∧ streamingLogs (App.hook st') = []
  ∧ agentSolution (App.hook st') = VNull
  ∧ App.liveTel st' = VNull
  ∧ App.data st' = App.data st
  ∧ App.status st' =
      coalesce (get_opt (App.data st) "status") (VStr "IDLE")
  ∧ (nullish (get_opt (App.data st) "status") = true →
       App.status st' = VStr "IDLE")
  ∧ (∀ tick, untyped tick →
       App.status (App.receive (Json tick) st') =
         coalesce (own_property tick "unit_status")
                  (coalesce (get_opt (App.data st) "status") (VStr "IDLE"))).
Proof.
  intros Htype st'.
  assert (App.hook st' =
            State VNull (lastAlert (App.hook st)) (connected (App.hook st))
                  VNull [] VNull) as Hh.
  { unfold st'. rewrite receive_hook. unfold exec.
    by rewrite onmessage_system_resumed. }
  assert (App.data st' = App.data st) as Hd by apply receive_data.
  unfold App.visible, App.status, App.liveTel. rewrite Hh, Hd. simpl.
  split_and!; try done.
  - intros Hn. unfold coalesce at 1. simpl. unfold coalesce. by rewrite Hn.
  - intros tick Hu. rewrite receive_hook, receive_data, Hd. unfold exec.
    rewrite onmessage_untyped by done. simpl.
    destruct Hu as [Hn _]. unfold get_opt at 1. by rewrite Hn.
Qed.

(** C5 (as amended).  A JSON frame other than [null] whose [type] is
    missing or none of "mcp_step", "solution", "alert", "system_resumed"
    is taken as a telemetry tick: it becomes the live tick, and the alert
    record, the critical state, the timeline, the solution and the
    connection flag are as before.  The frame [null] changes nothing.
    Neither raises an error. *)
Theorem unrecognised_frame_is_live_tick (st : state) data :
  (∀ name, name ∈ ["mcp_step"; "solution"; "alert"; "system_resumed"] →
           own_property data "type" ≠ VStr name) →
  onmessage (Json data) st =
    (Normal (),
     if nullish data then st
     else State data (lastAlert st) (connected st) (criticalEvent st)
                (streamingLogs st) (agentSolution st)).
Proof.
  intros Ht. destruct (nullish data) eqn:Hn.
  - by apply onmessage_nullish.
  - by rewrite onmessage_untyped.
Qed.

(** C10.  A system_resumed frame leaves [lastAlert] as it was: the state
    after it is the state before with exactly the live tick, the critical
    event, the timeline and the solution cleared, and the alert record
    (and the connection flag) kept. *)
Theorem system_resumed_keeps_last_alert (st : state) data :
  own_property data "type" = VStr "system_resumed" →
  let st' := exec (onmessage (Json data)) st in
  lastAlert st' = lastAlert st
  ∧ st' = State VNull (lastAlert st) (connected st) VNull [] VNull.
Proof.
  intros Htype st'. unfold st', exec.
  by rewrite onmessage_system_resumed.
Qed.

End incident.

(** ** Resuming from the overlay *)

Section resume.

Import CriticalOverlay.

(** C9.  Whatever the outcome of the POST to /system-resume (a 2xx
    response, another response, a rejected request), [handleAccept] ends
    normally and the local incident state is cleared as by
    [handleDismissOverlay]: no halt, no frozen snapshot, no held solution,
    an empty timeline, no orchestration snapshot.  A failure is printed
    with [console.error], once, and a success prints nothing. *)
Theorem resume_clears_whatever_the_outcome outcome (st : state) :
  let st' := (handleAccept outcome st).2 in
  (handleAccept outcome st).1 = Normal ()
  ∧ app st' = exec App.handleDismissOverlay (app st)
  ∧ App.visible (app st') = false
  ∧ criticalEvent (App.hook (app st')) = VNull
  ∧ agentSolution (App.hook (app st')) = VNull
  ∧ streamingLogs (App.hook (app st')) = []
  ∧ App.data (app st') = VNull
  ∧ console st' = console st ++ resume_report outcome
  ∧ length (resume_report outcome) = (if succeeded outcome then 0 else 1)%nat.
Proof.
  intros st'. subst st'.
  destruct outcome as [[isok status [body|err]]|err]; try destruct isok.
  all: split_and!; try reflexivity.
  all: simpl; by rewrite app_nil_r.
Qed.

End resume.

(** ** The connection *)

Section connection.

Implicit Types (s : session) (u : string) (n : nat).

Lemma run_app s trace1 trace2 :
  run s (trace1 ++ trace2) = run s trace1 ≫= λ s', run s' trace2.
Proof.
  revert s. induction trace1 as [|e trace1 IH]; intros s; simpl; [done|].
  destruct (step s e); simpl; [apply IH | done].
Qed.

Lemma failures_S failed n :
  failures failed (S n) =
    failures failed n ++ [SocketClose n (failed n); TimerFire n].
Proof.
  unfold failures. rewrite seq_S, flat_map_app. simpl. done.
Qed.

Lemma connect_unit u s :
  u ≠ "" →
  exec (connect u) s =
    Session (view s) (Some (length (sockets s))) (timer s) (tries s)
            (sockets s ++ [Socket u CONNECTING]) (timeouts s) (next_timeout s).
Proof.
  intros Hu. unfold exec, connect. simpl.
  by rewrite bool_decide_eq_false_2.
Qed.

Lemma mount_retrying u : u ≠ "" → mount u = retrying u 0.
Proof.
  intros Hu. unfold mount, effect, exec, bind, connect. simpl.
  by rewrite bool_decide_eq_false_2.
Qed.

Lemma exec_set_ready ws r s :
  exec (set_ready ws r) s =
    Session (view s) (wsRef s) (timer s) (tries s)
            (alter (λ k, Socket (unit_of k) r) ws (sockets s))
            (timeouts s) (next_timeout s).
Proof. done. Qed.

Lemma exec_onclose u s :
  exec (onclose u) s =
    Session (State (lastMessage (view s)) (lastAlert (view s)) false
                   (criticalEvent (view s)) (streamingLogs (view s))
                   (agentSolution (view s)))
            (wsRef s) (Some (next_timeout s)) (tries s + 1) (sockets s)
            (<[next_timeout s := Timeout (backoff (tries s)) u]> (timeouts s))
            (S (next_timeout s)).
Proof. done. Qed.

(** [ws.close()] on a closed socket does nothing. *)
Lemma exec_close_closed ws s k :
  sockets s !! ws = Some k → ready k = CLOSED → exec (close ws) s = s.
Proof.
  intros Hk Hc. unfold exec, close, bind, read, set_sockets, modify. simpl.
  destruct s as [v w t n l m nt]. simpl in *. f_equal.
  apply list_eq. intros i. destruct (decide (i = ws)) as [->|Hne].
  - rewrite list_lookup_alter_eq, Hk. simpl. rewrite Hc. done.
  - by rewrite list_lookup_alter_ne.
Qed.

Lemma close_attempt u n failed :
  step (retrying u n) (SocketClose n failed) = Some (waiting u n).
Proof.
  unfold step, retrying. simpl.
  rewrite lookup_app_r by (by rewrite length_replicate).
  rewrite length_replicate, Nat.sub_diag. simpl.
  rewrite exec_set_ready. simpl.
  rewrite alter_app_r_alt by (by rewrite length_replicate).
  rewrite length_replicate, Nat.sub_diag. simpl.
  rewrite <- replicate_S_end.
  assert (∀ s', sockets s' = replicate (S n) (Socket u CLOSED) →
            (if failed then exec (onerror n) s' else s') = s') as Herr.
  { intros s' Hs'. destruct failed; [|done].
    apply (exec_close_closed n s' (Socket u CLOSED)); [|done].
    rewrite Hs'. apply lookup_replicate_2. lia. }
  rewrite Herr by done. rewrite exec_onclose. simpl.
  by rewrite insert_empty.
Qed.

Lemma next_attempt u n :
  u ≠ "" → step (waiting u n) (TimerFire n) = Some (retrying u (S n)).
Proof.
  intros Hu. unfold step, waiting. simpl.
  rewrite lookup_singleton_eq. simpl.
  rewrite connect_unit by done. simpl.
  rewrite delete_singleton_eq, length_replicate.
  unfold retrying. do 2 f_equal. lia.
Qed.

Lemma run_failures u failed n :
  u ≠ "" → run (mount u) (failures failed n) = Some (retrying u n).
Proof.
  intros Hu. induction n as [|n IH].
  - simpl. by rewrite mount_retrying.
  - rewrite failures_S, run_app, IH. cbn -[step].
    rewrite close_attempt. cbn -[step]. by rewrite next_attempt.
Qed.

Lemma backoff_le k : backoff k ≤ 30000.
Proof. apply Z.le_min_r. Qed.

Lemma backoff_doubling k : 0 ≤ k < 4 → backoff k = 2000 * 2 ^ k.
Proof.
  intros Hk. apply Z.min_l.
  assert (2 ^ k ≤ 2 ^ 3) by (apply Z.pow_le_mono_r; lia). lia.
Qed.

Lemma backoff_capped k : 4 ≤ k → backoff k = 30000.
Proof.
  intros Hk. apply Z.min_r.
  assert (2 ^ 4 ≤ 2 ^ k) by (apply Z.pow_le_mono_r; lia). lia.
Qed.

Lemma timeouts_cleanup s :
  timeouts (exec cleanup s) =
    match timer s with
    | Some t => delete t (timeouts s)
    | None => timeouts s
    end.
Proof.
  by destruct s as [v [w|] [t|] n l m nt].
Qed.

Lemma timeouts_connect u s : timeouts (exec (connect u) s) = timeouts s.
Proof. unfold exec, connect. by destruct (negb _). Qed.

Lemma exec_effect u s :
  exec (effect u) s =
    exec (connect u)
      (Session (State (lastMessage (view s)) (lastAlert (view s))
                      (connected (view s)) (criticalEvent (view s)) [] VNull)
               (wsRef s) (timer s) (tries s) (sockets s) (timeouts s)
               (next_timeout s)).
Proof. done. Qed.

Lemma timeouts_effect u s : timeouts (exec (effect u) s) = timeouts s.
Proof. by rewrite exec_effect, timeouts_connect. Qed.

Lemma delays_bounded_delete id s m :
  delays_bounded s → m = delete id (timeouts s) ∨ m = timeouts s →
  ∀ id' t, m !! id' = Some t → delay t ≤ 30000.
Proof.
  intros Hs [-> | ->] id' t Ht; [|by eapply Hs].
  apply lookup_delete_Some in Ht as [_ Ht]. by eapply Hs.
Qed.

Lemma step_delays_bounded s e s' :
  delays_bounded s → step s e = Some s' → delays_bounded s'.
Proof.
  intros Hs Hstep. unfold delays_bounded.
  destruct e as [u | | ws | ws evt_data | ws failed | id]; simpl in Hstep.
  - injection Hstep as <-.
    replace (exec (cleanup >> effect u) s)
      with (exec (effect u) (exec cleanup s)).
    2:{ by destruct s as [v [w|] [t|] n l m nt]. }
    rewrite timeouts_effect, timeouts_cleanup.
    apply (delays_bounded_delete (default 0%nat (timer s)) s); [done|].
    destruct (timer s); auto.
  - injection Hstep as <-. rewrite timeouts_cleanup.
    apply (delays_bounded_delete (default 0%nat (timer s)) s); [done|].
    destruct (timer s); auto.
  - destruct (sockets s !! ws) as [k|]; [|done]. simpl in Hstep.
    case_decide; [|done]. injection Hstep as <-. apply Hs.
  - destruct (sockets s !! ws) as [k|]; [|done]. simpl in Hstep.
    case_decide; [|done]. injection Hstep as <-.
    unfold exec, on_view. by destruct (onmessage _ _).
  - destruct (sockets s !! ws) as [k|]; [|done]. simpl in Hstep.
    case_decide; [done|]. injection Hstep as <-.
    rewrite exec_onclose. simpl.
    assert (timeouts (if failed
                      then exec (onerror ws) (exec (set_ready ws CLOSED) s)
                      else exec (set_ready ws CLOSED) s) = timeouts s) as ->
      by by destruct failed.
    intros id t [[_ <-] | [_ Ht]]%lookup_insert_Some.
    + apply backoff_le.
    + by eapply Hs.
  - destruct (timeouts s !! id) as [t|]; [|done]. simpl in Hstep.
    injection Hstep as <-. rewrite timeouts_connect. simpl.
    apply (delays_bounded_delete id s); auto.
Qed.

Lemma run_delays_bounded trace s s' :
  delays_bounded s → run s trace = Some s' → delays_bounded s'.
Proof.
  revert s. induction trace as [|e trace IH]; intros s Hs Hrun; simpl in Hrun.
  - by injection Hrun as <-.
  - destruct (step s e) as [s1|] eqn:He; [|done].
    eapply IH; [|done]. by eapply step_delays_bounded.
Qed.

Lemma mount_delays_bounded u : delays_bounded (mount u).
Proof.
  unfold delays_bounded, mount. rewrite timeouts_effect. simpl.
  intros id t Ht. by rewrite lookup_empty in Ht.
Qed.

(** C2.  From a fresh connection, the close of the n-th attempt in a row
    schedules the reconnect after min(2000 * 2^(n-1), 30000) ms, that is
    2000, 4000, 8000, 16000, 30000, 30000, ...; a close handler computes
    the delay from the counter and then adds one to the counter, an open
    sets the counter to 0, and no timeout of a session ever pending waits
    longer than 30000 ms. *)
Theorem reconnect_delay_sequence u failed n :
  u ≠ "" →
  (1 ≤ n)%nat →
  (∃ s, run (mount u)
            (failures failed (n - 1)
             ++ [SocketClose (n - 1) (failed (n - 1)%nat)]) = Some s
        ∧ timer s = Some (n - 1)%nat
        ∧ timeouts s =
            {[ (n - 1)%nat :=
                 Timeout (Z.min (2000 * 2 ^ (Z.of_nat n - 1)) 30000) u ]}
        ∧ tries s = Z.of_nat n)
  ∧ backoff <$> [0; 1; 2; 3; 4; 5] =
      [2000; 4000; 8000; 16000; 30000; 30000]
  ∧ (∀ k, 0 ≤ k < 4 → backoff k = 2000 * 2 ^ k)
  ∧ (∀ k, 4 ≤ k → backoff k = 30000)
  ∧ (∀ s unitId,
       let s' := exec (onclose unitId) s in
       timeouts s' !! next_timeout s = Some (Timeout (backoff (tries s)) unitId)
       ∧ tries s' = tries s + 1)
  ∧ (∀ s ws s', step s (SocketOpen ws) = Some s' → tries s' = 0)
  ∧ (∀ trace s, run (mount u) trace = Some s →
       ∀ id t, timeouts s !! id = Some t → delay t ≤ 30000).
Proof.
  intros Hu Hn. split_and!.
  - exists (waiting u (n - 1)). split_and!.
    + rewrite run_app, run_failures by done. cbn -[step].
      by rewrite close_attempt.
    + done.
    + replace (Z.of_nat n - 1) with (Z.of_nat (n - 1)) by lia. done.
    + simpl. lia.
  - done.
  - apply backoff_doubling.
  - apply backoff_capped.
  - intros s unitId s'. unfold s'. rewrite exec_onclose. simpl.
    by rewrite lookup_insert_eq.
  - intros s ws s' Hstep. simpl in Hstep.
    destruct (sockets s !! ws) as [k|]; [|done]. simpl in Hstep.
    case_decide; [|done]. by injection Hstep as <-.
  - intros trace s Hrun. eapply run_delays_bounded; [|done].
    apply mount_delays_bounded.
Qed.

(** C8 (what the code does).  An open session is torn down: the cleanup
    finds no timeout to cancel and starts closing the socket.  The close
    event of that socket then runs the close handler, which schedules a
    reconnect; the timeout fires and a new socket is made, after the
    teardown.  The same happens when the unit changes: the session of the
    old unit reconnects and takes [wsRef] from the new one. *)
Theorem teardown_is_followed_by_reconnect :
  (∃ s1 s2 s3,
     run (mount "ENGINE-001") [SocketOpen 0; Unmount] = Some s1
     ∧ sockets s1 = [Socket "ENGINE-001" CLOSING]
     ∧ timeouts s1 = ∅
     ∧ step s1 (SocketClose 0 false) = Some s2
     ∧ timeouts s2 = {[ 0%nat := Timeout 2000 "ENGINE-001" ]}
     ∧ step s2 (TimerFire 0) = Some s3
     ∧ sockets s3 =
         [Socket "ENGINE-001" CLOSED; Socket "ENGINE-001" CONNECTING]
     ∧ wsRef s3 = Some 1%nat)
  ∧ (∃ s,
       run (mount "ENGINE-001")
           [SocketOpen 0; ChangeUnit "ENGINE-002"; SocketClose 0 false;
            TimerFire 0] = Some s
       ∧ sockets s =
           [Socket "ENGINE-001" CLOSED; Socket "ENGINE-002" CONNECTING;
            Socket "ENGINE-001" CONNECTING]
       ∧ wsRef s = Some 2%nat).
Proof.
  split.
  - eexists _, _, _. split_and!; vm_compute; reflexivity.
  - eexists. split_and!; vm_compute; reflexivity.
Qed.

End connection.

(** ** The connection over whole traces *)

Section reconnecting.

Implicit Types (s : session) (u : string) (e : event).

Lemma exec_cleanup s :
  exec cleanup s =
    Session (view s) (wsRef s) (timer s) (tries s)
            (match wsRef s with
             | Some w => alter (λ k, match ready k with
                                     | CONNECTING | OPEN =>
                                         Socket (unit_of k) CLOSING
                                     | CLOSING | CLOSED => k
                                     end) w (sockets s)
             | None => sockets s
             end)
            (match timer s with
             | Some t => delete t (timeouts s)
             | None => timeouts s
             end)
            (next_timeout s).
Proof. by destruct s as [v [w|] [t|] n l m nt]. Qed.

Lemma exec_onopen s :
  exec onopen s =
    Session (State (lastMessage (view s)) (lastAlert (view s)) true
                   (criticalEvent (view s)) (streamingLogs (view s))
                   (agentSolution (view s)))
            (wsRef s) (timer s) 0 (sockets s) (timeouts s) (next_timeout s).
Proof. done. Qed.

Lemma exec_connect_empty s : exec (connect "") s = s.
Proof. done. Qed.

Lemma alter_closed (f : socket → socket) l i :
  Forall (λ k, ready k = CLOSED) l →
  (∀ k, ready k = CLOSED → f k = k) →
  alter f i l = l.
Proof.
  intros Hl Hf. apply list_eq. intros j.
  destruct (decide (i = j)) as [<- | Hne];
    [|by rewrite list_lookup_alter_ne].
  rewrite list_lookup_alter_eq. destruct (l !! i) as [k|] eqn:Hk; [|done].
  simpl. f_equal. apply Hf.
  rewrite Forall_forall in Hl. apply Hl. by eapply list_elem_of_lookup_2.
Qed.

Lemma close_after_error s ws :
  step s (SocketClose ws true) = step s (SocketClose ws false).
Proof.
  simpl. destruct (sockets s !! ws) as [k|] eqn:Hk; [|done]. simpl.
  case_decide; [done|]. do 2 f_equal.
  apply (exec_close_closed ws _ (Socket (unit_of k) CLOSED)); [|done].
  rewrite exec_set_ready. simpl. by rewrite list_lookup_alter_eq, Hk.
Qed.

Lemma close_schedules s ws failed s' :
  step s (SocketClose ws failed) = Some s' →
  s' = exec (onclose (default "" (unit_of <$> sockets s !! ws)))
            (exec (set_ready ws CLOSED) s).
Proof.
  assert (step s (SocketClose ws failed) = step s (SocketClose ws false)) as ->
    by (destruct failed; [apply close_after_error | done]).
  simpl. destruct (sockets s !! ws) as [k|] eqn:Hk; [|done]. simpl.
  case_decide; [done|]. by intros [= <-].
Qed.

(** X8.  An error adds nothing to a close: the socket is closed when [onerror]
    runs, its [ws.close()] does nothing, and one reconnect is scheduled,
    by [onclose]. *)
Theorem error_schedules_no_second_reconnect s ws :
  step s (SocketClose ws true) = step s (SocketClose ws false)
  ∧ ∀ s', step s (SocketClose ws true) = Some s' →
          timeouts s' =
            <[next_timeout s := Timeout (backoff (tries s))
                                  (default "" (unit_of <$> sockets s !! ws))]>
              (timeouts s)
          ∧ sockets s' = alter (λ k, Socket (unit_of k) CLOSED) ws (sockets s).
Proof.
  split; [apply close_after_error|].
  intros s' Hstep. apply close_schedules in Hstep as ->.
  by rewrite exec_onclose.
Qed.

Lemma mount_one_live_socket u : u ≠ "" → one_live_socket u (mount u).
Proof.
  intros Hu. rewrite mount_retrying by done. split; [done|].
  exists 0%nat, (Socket u CONNECTING). split_and!; try done.
  intros [|i] k' Hi Hk; [done|]. done.
Qed.

Lemma step_single_connection u s e s' :
  u ≠ "" →
  browser_event e →
  one_live_socket u s ∨ one_pending_timer u s →
  step s e = Some s' →
  one_live_socket u s' ∨ one_pending_timer u s'.
Proof.
  intros Hu He Hs Hstep.
  destruct e as [? | | ws | ws evt_data | ws failed | id]; try done.
  - (* open *)
    simpl in Hstep. destruct (sockets s !! ws) as [k|] eqn:Hk; [|done].
    simpl in Hstep. case_decide as Hr; [|done]. injection Hstep as <-.
    destruct Hs as [(Ht & w & k0 & Hw & Hk0 & Hr0 & Hu0 & Hothers) | [Hall _]].
    2:{ rewrite Forall_forall in Hall.
        rewrite (Hall k) in Hr; [done|]. by eapply list_elem_of_lookup_2. }
    destruct (decide (ws = w)) as [-> | Hne].
    2:{ rewrite (Hothers ws k) in Hr; done. }
    left. rewrite exec_onopen, exec_set_ready. simpl. split; [done|].
    exists w, (Socket (unit_of k) OPEN). simpl. split_and!; try done.
    + by rewrite list_lookup_alter_eq, Hk.
    + congruence.
    + intros i k' Hi. rewrite list_lookup_alter_ne by done. by apply Hothers.
  - (* message *)
    simpl in Hstep. destruct (sockets s !! ws) as [k|] eqn:Hk; [|done].
    simpl in Hstep. case_decide as Hr; [|done]. injection Hstep as <-.
    unfold exec, on_view. by destruct (onmessage _ _).
  - (* close *)
    pose proof (close_schedules _ _ _ _ Hstep) as Hs'.
    assert (timeouts s' =
              <[next_timeout s := Timeout (backoff (tries s))
                                    (default "" (unit_of <$> sockets s !! ws))]>
                (timeouts s)
            ∧ sockets s' = alter (λ k, Socket (unit_of k) CLOSED) ws (sockets s))
      as [Htimeouts Hsockets] by (by rewrite Hs', exec_onclose).
    assert (step s (SocketClose ws false) = Some s') as Hstep'
      by (destruct failed; [by rewrite <- close_after_error | done]).
    simpl in Hstep'. destruct (sockets s !! ws) as [k|] eqn:Hk; [|done].
    simpl in Hstep'. case_decide as Hr; [done|]. clear Hstep'.
    destruct Hs as [(Ht & w & k0 & Hw & Hk0 & Hr0 & Hu0 & Hothers) | [Hall _]].
    2:{ rewrite Forall_forall in Hall. destruct Hr. apply Hall.
        by eapply list_elem_of_lookup_2. }
    destruct (decide (ws = w)) as [-> | Hne].
    2:{ destruct Hr. by apply (Hothers ws k). }
    right. split.
    + rewrite Hsockets. apply Forall_lookup. intros i k' Hi.
      destruct (decide (i = w)) as [-> | Hne].
      * rewrite list_lookup_alter_eq, Hk in Hi. by injection Hi as <-.
      * rewrite list_lookup_alter_ne in Hi by done. by eapply Hothers.
    + exists (next_timeout s), (backoff (tries s)). split.
      * rewrite Hs'. by rewrite exec_onclose.
      * rewrite Htimeouts, Ht, insert_empty. simpl in *.
        assert (k = k0) as -> by congruence. by rewrite Hu0.
  - (* timer *)
    simpl in Hstep. destruct (timeouts s !! id) as [t|] eqn:Hid; [|done].
    simpl in Hstep. injection Hstep as <-.
    destruct Hs as [[Ht _] | (Hall & id0 & ms & Htimer & Ht)].
    { by rewrite Ht in Hid. }
    rewrite Ht in Hid. apply lookup_singleton_Some in Hid as [<- <-].
    simpl. rewrite connect_unit by done. simpl. left. split.
    + rewrite Ht. apply delete_singleton_eq.
    + exists (length (sockets s)), (Socket u CONNECTING). simpl.
      split_and!; try done.
      * by rewrite lookup_app_r, Nat.sub_diag.
      * intros i k' Hi Hk'.
        apply lookup_app_Some in Hk' as [Hk' | [Hge Hk']].
        -- rewrite Forall_forall in Hall. apply Hall.
           by eapply list_elem_of_lookup_2.
        -- destruct (i - length (sockets s))%nat eqn:Hd; [lia | done].
Qed.

(** X9.  A session that is never torn down always has exactly one way on: one
    socket that is connecting or open, held by [wsRef], or one pending
    reconnect, held by [timer].  It never has two connections at once, and
    it is never left with none and no reconnect to come. *)
Theorem single_connection u trace s :
  u ≠ "" →
  Forall browser_event trace →
  run (mount u) trace = Some s →
  (one_live_socket u s ∨ one_pending_timer u s)
  ∧ ∃ e, browser_event e ∧ is_Some (step s e).
Proof.
  intros Hu Htrace Hrun.
  assert (one_live_socket u s ∨ one_pending_timer u s) as Hs.
  { pose proof (mount_one_live_socket u Hu) as Hm.
    assert (one_live_socket u (mount u) ∨ one_pending_timer u (mount u)) as H0
      by by left.
    clear Hm. revert Hrun H0. generalize (mount u) as s0.
    induction Htrace as [|e trace He _ IH]; intros s0 Hrun H0; simpl in Hrun.
    - by injection Hrun as <-.
    - destruct (step s0 e) as [s1|] eqn:Hstep; [|done].
      eapply IH; [done|]. by eapply step_single_connection. }
  split; [done|].
  destruct Hs as [(_ & w & k & _ & Hk & Hr & _) | (_ & id & ms & _ & Ht)].
  - exists (SocketClose w false). split; [done|]. simpl. rewrite Hk. simpl.
    by rewrite decide_False.
  - exists (TimerFire id). split; [done|]. simpl.
    by rewrite Ht, lookup_singleton_eq.
Qed.

(** X10.  Torn down while it waits to reconnect, a session is over: the cleanup
    cancels the pending timeout, no socket is left to close, and no event
    of the browser can reach the session again. *)
Theorem teardown_while_waiting_is_final u s :
  one_pending_timer u s →
  let s' := exec cleanup s in
  timeouts s' = ∅
  ∧ sockets s' = sockets s
  ∧ ∀ e, browser_event e → step s' e = None.
Proof.
  intros (Hall & id & ms & Htimer & Ht) s'.
  assert (timeouts s' = ∅) as Hnone.
  { subst s'. rewrite exec_cleanup. simpl.
    by rewrite Htimer, Ht, delete_singleton_eq. }
  assert (sockets s' = sockets s) as Hsame.
  { subst s'. rewrite exec_cleanup. simpl.
    destruct (wsRef s) as [w|]; [|done].
    apply alter_closed; [done|]. by intros k ->. }
  split_and!; [done..|].
  intros e He. destruct e as [? | | ws | ws evt_data | ws failed | id'];
    try done; simpl.
  - rewrite Hsame. destruct (sockets s !! ws) as [k|] eqn:Hk; [|done]. simpl.
    rewrite Forall_forall in Hall.
    rewrite (Hall k) by by eapply list_elem_of_lookup_2. done.
  - rewrite Hsame. destruct (sockets s !! ws) as [k|] eqn:Hk; [|done]. simpl.
    rewrite Forall_forall in Hall.
    rewrite (Hall k) by by eapply list_elem_of_lookup_2. done.
  - rewrite Hsame. destruct (sockets s !! ws) as [k|] eqn:Hk; [|done]. simpl.
    rewrite Forall_forall in Hall.
    rewrite (Hall k) by by eapply list_elem_of_lookup_2. done.
  - by rewrite Hnone.
Qed.

(** X11.  A successful open starts the backoff over: after any number of failed
    attempts, the close of a connection that had opened schedules the
    reconnect after 2000 ms, with the counter at 1. *)
Theorem open_restarts_backoff u failed n lost :
  u ≠ "" →
  ∃ s, run (mount u) (failures failed n ++ [SocketOpen n; SocketClose n lost])
         = Some s
       ∧ timeouts s = {[ n := Timeout 2000 u ]}
       ∧ timer s = Some n
       ∧ tries s = 1
       ∧ connected (view s) = false.
Proof.
  intros Hu. rewrite run_app, run_failures by done. cbn -[step].
  assert (step (retrying u n) (SocketOpen n) =
          Some (Session (State VNull VNull true VNull [] VNull) (Some n)
                  (match n with O => None | S k => Some k end) 0
                  (replicate n (Socket u CLOSED) ++ [Socket u OPEN]) ∅ n))
    as ->.
  { unfold step, retrying. simpl.
    rewrite lookup_app_r by (by rewrite length_replicate).
    rewrite length_replicate, Nat.sub_diag. simpl.
    rewrite exec_onopen, exec_set_ready. simpl.
    rewrite alter_app_r_alt by (by rewrite length_replicate).
    by rewrite length_replicate, Nat.sub_diag. }
  cbn -[step].
  pose proof (close_after_error
    (Session (State VNull VNull true VNull [] VNull) (Some n)
       (match n with O => None | S k => Some k end) 0
       (replicate n (Socket u CLOSED) ++ [Socket u OPEN]) ∅ n) n) as Heq.
  assert (step (Session (State VNull VNull true VNull [] VNull) (Some n)
                  (match n with O => None | S k => Some k end) 0
                  (replicate n (Socket u CLOSED) ++ [Socket u OPEN]) ∅ n)
            (SocketClose n lost) =
          Some (Session initial (Some n) (Some n) 1
                  (replicate (S n) (Socket u CLOSED))
                  {[ n := Timeout 2000 u ]} (S n))) as ->.
  { destruct lost; [rewrite Heq|]; unfold step; simpl;
      rewrite lookup_app_r by (by rewrite length_replicate);
      rewrite length_replicate, Nat.sub_diag; simpl;
      rewrite exec_onclose, exec_set_ready; simpl;
      rewrite alter_app_r_alt by (by rewrite length_replicate);
      rewrite length_replicate, Nat.sub_diag; simpl;
      by rewrite <- replicate_S_end, insert_empty. }
  eexists. split; [done|]. done.
Qed.

(** X12.  A change of unit clears the timeline and the solution and connects to
    the new unit, and that is all: the live tick, the alert record and the
    critical event of the old unit stay on screen, and the retry counter
    goes on from where it was. *)
Theorem unit_change_keeps_incident_and_counter s u' :
  u' ≠ "" →
  ∃ s', step s (ChangeUnit u') = Some s'
        ∧ streamingLogs (view s') = []
        ∧ agentSolution (view s') = VNull
        ∧ lastMessage (view s') = lastMessage (view s)
        ∧ lastAlert (view s') = lastAlert (view s)
        ∧ criticalEvent (view s') = criticalEvent (view s)
        ∧ tries s' = tries s
        ∧ wsRef s' = Some (length (sockets s))
        ∧ sockets s' !! length (sockets s) = Some (Socket u' CONNECTING)
        ∧ length (sockets s') = S (length (sockets s)).
Proof.
  intros Hu. eexists. split; [done|].
  replace (exec (cleanup >> effect u') s)
    with (exec (effect u') (exec cleanup s))
    by by destruct s as [v [w|] [t|] n l m nt].
  rewrite exec_effect, connect_unit by done.
  rewrite exec_cleanup. simpl.
  assert (length (match wsRef s with
                  | Some w => alter (λ k, match ready k with
                                          | CONNECTING | OPEN =>
                                              Socket (unit_of k) CLOSING
                                          | CLOSING | CLOSED => k
                                          end) w (sockets s)
                  | None => sockets s
                  end) = length (sockets s)) as Hlen.
  { destruct (wsRef s); [apply length_alter | done]. }
  rewrite Hlen. split_and!; try done.
  - by rewrite lookup_app_r, Hlen, Nat.sub_diag by lia.
  - rewrite length_app, Hlen. simpl. lia.
Qed.

(** X13.  With an empty unit id nothing is ever attempted: the mounted session
    has no socket and no timeout, no event of the browser can happen to it,
    and a change to the empty unit makes no socket. *)
Theorem empty_unit_never_connects :
  sockets (mount "") = []
  ∧ timeouts (mount "") = ∅
  ∧ (∀ e, browser_event e → step (mount "") e = None)
  ∧ ∀ s, ∃ s', step s (ChangeUnit "") = Some s'
               ∧ length (sockets s') = length (sockets s)
               ∧ wsRef s' = wsRef s.
Proof.
  split_and!; [done | done | |].
  - intros [? | | ws | ws evt_data | ws failed | id] He; try done.
  - intros s. eexists. split; [done|].
    replace (exec (cleanup >> effect "") s)
      with (exec (effect "") (exec cleanup s))
      by by destruct s as [v [w|] [t|] n l m nt].
    rewrite exec_effect, exec_connect_empty, exec_cleanup. simpl.
    split; [|done]. destruct (wsRef s); [apply length_alter | done].
Qed.

Lemma backoff_at_least k : 0 ≤ k → 2000 ≤ backoff k.
Proof.
  intros Hk. unfold backoff. apply Z.min_glb; [|lia].
  assert (2 ^ 0 ≤ 2 ^ k) by (apply Z.pow_le_mono_r; lia). lia.
Qed.

Lemma backoff_monotone a b : 0 ≤ a ≤ b → backoff a ≤ backoff b.
Proof.
  intros Hab. unfold backoff. apply Z.min_le_compat_r.
  assert (2 ^ a ≤ 2 ^ b) by (apply Z.pow_le_mono_r; lia). lia.
Qed.

Lemma step_no_hot_loop s e s' :
  no_hot_loop s → step s e = Some s' → no_hot_loop s'.
Proof.
  intros [Htries Hs] Hstep. unfold no_hot_loop.
  destruct e as [u | | ws | ws evt_data | ws failed | id]; simpl in Hstep.
  - injection Hstep as <-.
    replace (exec (cleanup >> effect u) s)
      with (exec (effect u) (exec cleanup s))
      by by destruct s as [v [w|] [t|] n l m nt].
    rewrite exec_effect. unfold exec at 1 3, connect.
    destruct (negb _); simpl; rewrite exec_cleanup; simpl; (split; [done|]);
      intros id t Ht; destruct (timer s);
      try apply lookup_delete_Some in Ht as [_ Ht]; by eapply Hs.
  - injection Hstep as <-. rewrite exec_cleanup. simpl. split; [done|].
    intros id t Ht; destruct (timer s);
      try apply lookup_delete_Some in Ht as [_ Ht]; by eapply Hs.
  - destruct (sockets s !! ws) as [k|]; [|done]. simpl in Hstep.
    case_decide; [|done]. injection Hstep as <-.
    rewrite exec_onopen. simpl. split; [done|]. apply Hs.
  - destruct (sockets s !! ws) as [k|]; [|done]. simpl in Hstep.
    case_decide; [|done]. injection Hstep as <-.
    unfold exec, on_view. by destruct (onmessage _ _).
  - apply close_schedules in Hstep as ->. rewrite exec_onclose. simpl.
    split; [lia|].
    + intros id t [[_ <-] | [_ Ht]]%lookup_insert_Some.
      * simpl. by apply backoff_at_least.
      * by eapply Hs.
  - destruct (timeouts s !! id) as [t|]; [|done]. simpl in Hstep.
    injection Hstep as <-. unfold exec, connect.
    destruct (negb _); simpl; (split; [done|]);
      intros id' t' [_ Ht]%lookup_delete_Some; by eapply Hs.
Qed.

(** X14.  Reconnects never run hot: in every session reached from a mount, the
    retry counter is not negative and every pending reconnect waits at least
    2000 ms; and a longer run of failures never waits less. *)
Theorem reconnect_never_hot u trace s :
  run (mount u) trace = Some s →
  0 ≤ tries s
  ∧ (∀ id t, timeouts s !! id = Some t → 2000 ≤ delay t ≤ 30000)
  ∧ ∀ a b, 0 ≤ a ≤ b → backoff a ≤ backoff b.
Proof.
  intros Hrun.
  assert (no_hot_loop s) as [Htries Hlow].
  { assert (no_hot_loop (mount u)) as H0.
    { split.
      - unfold mount. rewrite exec_effect. unfold exec, connect.
        by destruct (negb _).
      - intros id t Ht. unfold mount in Ht.
        rewrite timeouts_effect in Ht. simpl in Ht.
        by rewrite lookup_empty in Ht. }
    revert Hrun H0. generalize (mount u) as s0.
    induction trace as [|e trace IH]; intros s0 Hrun H0; simpl in Hrun.
    - by injection Hrun as <-.
    - destruct (step s0 e) as [s1|] eqn:Hstep; [|done].
      eapply IH; [done|]. by eapply step_no_hot_loop. }
  split_and!; [done | | apply backoff_monotone].
  intros id t Ht. split; [by eapply Hlow|].
  eapply run_delays_bounded; [apply mount_delays_bounded | done | done].
Qed.

End reconnecting.

(** ** One frame, one route *)

Section routes.

Implicit Types (st : state) (d : value).

(** Whatever the frame, [onmessage] ends normally, and what it did is one
    of the routes. *)
Lemma onmessage_routes evt_data st :
  ∃ st', onmessage evt_data st = (Normal (), st') ∧ routes st evt_data st'.
Proof.
  destruct evt_data as [text | d].
  { exists st. split; [done | constructor]. }
  destruct (nullish d) eqn:Hn.
  { exists st. split; [by apply onmessage_nullish | by constructor]. }
  destruct (strict_equals (own_property d "type") (VStr "mcp_step")) eqn:H1.
  { apply strict_equals_true in H1. eexists. split;
      [by apply onmessage_mcp_step | by constructor]. }
  destruct (strict_equals (own_property d "type") (VStr "solution")) eqn:H2.
  { apply strict_equals_true in H2. eexists. split;
      [by apply onmessage_solution | by constructor]. }
  destruct (strict_equals (own_property d "type") (VStr "alert")) eqn:H3.
  { apply strict_equals_true in H3. eexists. split;
      [by apply onmessage_alert | by constructor]. }
  destruct (strict_equals (own_property d "type") (VStr "system_resumed")) eqn:H4.
  { apply strict_equals_true in H4. eexists. split;
      [by apply onmessage_system_resumed | by constructor]. }
  assert (untyped d) as Hu.
  { split; [done|]. intros name Hin Heq. rewrite Heq in H1, H2, H3, H4.
    simpl in *.
    repeat (apply elem_of_cons in Hin as [-> | Hin];
            [by rewrite bool_decide_eq_true_2 in * |]).
    by apply elem_of_nil in Hin. }
  eexists. split; [by apply onmessage_untyped | by constructor].
Qed.

Lemma exec_routes evt_data st : routes st evt_data (exec (onmessage evt_data) st).
Proof.
  destruct (onmessage_routes evt_data st) as (st' & Heq & Hr).
  unfold exec. by rewrite Heq.
Qed.

(** X1.  The handler never throws, whatever arrives, and it never touches the
    connection flag: only [onopen] and [onclose] do. *)
Theorem onmessage_never_throws evt_data st :
  (onmessage evt_data st).1 = Normal ()
  ∧ connected (exec (onmessage evt_data) st) = connected st.
Proof.
  destruct (onmessage_routes evt_data st) as (st' & Heq & Hr).
  unfold exec. rewrite Heq. split; [done|]. by destruct Hr.
Qed.

(** X2.  A frame changes the alert record only if it is an alert, the solution
    only if it is a solution or system_resumed, the live tick only if it is
    a tick or system_resumed, and the critical event only if it is an alert
    or system_resumed. *)
Theorem frame_isolation evt_data st :
  let st' := exec (onmessage evt_data) st in
  (lastAlert st' ≠ lastAlert st →
     ∃ d, evt_data = Json d ∧ own_property d "type" = VStr "alert")
  ∧ (agentSolution st' ≠ agentSolution st → ends_solution evt_data)
  ∧ (lastMessage st' ≠ lastMessage st →
       ∃ d, evt_data = Json d
            ∧ (untyped d ∨ own_property d "type" = VStr "system_resumed"))
  ∧ (criticalEvent st' ≠ criticalEvent st →
       ∃ d, evt_data = Json d
            ∧ (own_property d "type" = VStr "alert"
               ∨ own_property d "type" = VStr "system_resumed")).
Proof.
  intros st'. subst st'. unfold ends_solution.
  destruct (exec_routes evt_data st); simpl; split_and!; intros Hne;
    try done; eauto.
Qed.

(** X3.  Only an alert with a truthy [isError] or the severity "critical" opens
    the halt: if no critical event was held and one is held after a frame,
    the frame is such an alert and the event is its payload.  Telemetry,
    whatever its [unit_status], never does. *)
Theorem only_qualifying_alert_halts evt_data st :
  criticalEvent st = VNull →
  criticalEvent (exec (onmessage evt_data) st) ≠ VNull →
  ∃ d, evt_data = Json d
       ∧ own_property d "type" = VStr "alert"
       ∧ qualifying d = true
       ∧ criticalEvent (exec (onmessage evt_data) st) = d.
Proof.
  intros Hnull Hheld.
  destruct (exec_routes evt_data st); simpl in *; try done.
  exists d. destruct (qualifying d); done.
Qed.

(** X4.  During a halt the frozen snapshot is safe from an informational alert,
    which is only recorded, but not from a second critical alert, whose
    payload takes its place. *)
Theorem alert_during_halt st d :
  own_property d "type" = VStr "alert" →
  let st' := exec (onmessage (Json d)) st in
  lastAlert st' = d
  ∧ criticalEvent st' = (if qualifying d then d else criticalEvent st)
  ∧ lastMessage st' = lastMessage st
  ∧ streamingLogs st' = streamingLogs st
  ∧ agentSolution st' = agentSolution st.
Proof.
  intros Ht st'. subst st'. unfold exec. by rewrite onmessage_alert.
Qed.

Lemma append_step_unique d prev :
  scalar (step_of d) = true →
  NoDup (step_of <$> prev) →
  NoDup (step_of <$> append_step d prev).
Proof.
  intros Hs Hnd. destruct (held_or_new d prev Hs) as [Hin | Hout].
  - by rewrite append_step_held.
  - rewrite append_step_new by done. rewrite fmap_app.
    apply NoDup_app. split_and!; [done | | apply NoDup_singleton].
    by intros x Hx ->%list_elem_of_singleton.
Qed.

(** X5.  Whatever frames arrive, of whatever types and in whatever order, the
    identifiers held in the timeline are pairwise different, as long as the
    identifiers of the steps among them are scalars. *)
Theorem held_identifiers_unique frames :
  (∀ d, Json d ∈ frames → mcp_step d → scalar (step_of d) = true) →
  NoDup (step_of <$> streamingLogs (receive_all frames initial)).
Proof.
  induction frames as [|evt_data frames IH] using rev_ind; intros Hs.
  { constructor. }
  unfold receive_all in *. rewrite foldl_app. simpl.
  assert (NoDup (step_of <$> streamingLogs
            (foldl (λ st evt_data, exec (onmessage evt_data) st) initial frames)))
    as Hnd.
  { apply IH. intros d Hd. apply Hs. apply elem_of_app. by left. }
  destruct (exec_routes evt_data (foldl
    (λ st evt_data, exec (onmessage evt_data) st) initial frames)); simpl;
    try done; [|constructor].
  apply append_step_unique; [|done].
  apply Hs; [|done]. apply elem_of_app. right. by apply list_elem_of_singleton.
Qed.

Lemma apply_op_well_typed st op : well_typed st → well_typed (apply_op st op).
Proof.
  assert (∀ v name, own_property v "type" = VStr name → v ≠ VNull) as Hobj.
  { intros v name Hv ->. done. }
  intros (Hc & Ha & Hsol & Hm & Hl). unfold well_typed.
  destruct op as [evt_data | | |]; simpl; [|split_and!; auto..].
  destruct (exec_routes evt_data st) as
    [text | d Hn | d Ht | d Ht | d Ht | d Ht | d Hu]; simpl.
  - split_and!; auto.
  - split_and!; auto.
  - split_and!; auto.
    destruct (append_step_cases d (streamingLogs st)) as [-> | ->]; [done|].
    apply Forall_app. split; [done|]. by constructor.
  - split_and!; auto.
  - assert (d ≠ VNull) by by eapply Hobj.
    split_and!; auto.
    destruct (qualifying d) eqn:Hq; [by right|].
    destruct Hc as [? | (? & ? & _)]; [by left | by right].
  - split_and!; auto.
  - split_and!; auto.
Qed.

(** X6.  The slices of the state keep their types over any run of frames and
    callbacks: the critical event is null or a qualifying alert, and then an
    alert is on record; the alert record is null or an alert; the solution
    is null or a solution frame; the live tick is null or a tick; every held
    step is an mcp_step frame.  So the overlay is visible exactly when the
    critical event is not null. *)
Theorem hook_state_typed ops :
  let st := apply_ops ops initial in
  well_typed st
  ∧ (to_boolean (criticalEvent st) = true ↔ criticalEvent st ≠ VNull).
Proof.
  intros st. subst st.
  assert (well_typed (apply_ops ops initial)) as Hw.
  { unfold apply_ops. induction ops as [|op ops IH] using rev_ind.
    - unfold well_typed. split_and!; auto.
    - rewrite foldl_app. simpl. by apply apply_op_well_typed. }
  split; [done|]. destruct Hw as ([Hnull | (Ht & _ & _)] & _).
  { by rewrite Hnull. }
  rewrite (has_type_truthy _ _ Ht). split; [|done].
  intros _ Heq. by rewrite Heq in Ht.
Qed.

Lemma solution_kept later st :
  Forall (λ evt_data, ¬ ends_solution evt_data) later →
  agentSolution (receive_all later st) = agentSolution st.
Proof.
  intros Hlater. revert st.
  induction Hlater as [|evt_data later Hf _ IH]; intros st; [done|].
  simpl. rewrite IH.
  destruct (exec_routes evt_data st) as
    [text | d Hn | d Ht | d Ht | d Ht | d Ht | d Hu]; simpl; try done.
  - destruct Hf. exists d. auto.
  - destruct Hf. exists d. auto.
Qed.

(** X7.  Once a solution with a decision is held, the overlay stays on the
    proposed fix: steps, ticks and alerts that arrive later (a redelivered
    step, for one) do not take it back to "analyzing".  A solution frame
    without a decision never gets it there. *)
Theorem solution_phase_is_kept st d later :
  own_property d "type" = VStr "solution" →
  Forall (λ evt_data, ¬ ends_solution evt_data) later →
  let st' := receive_all later (exec (onmessage (Json d)) st) in
  agentSolution st' = d
  ∧ CriticalOverlay.solving (streamingLogs st') (agentSolution st') =
      bool_decide (0 < length (streamingLogs st'))%nat
      && negb (to_boolean (own_property d "decision"))
  ∧ (to_boolean (own_property d "decision") = true →
       CriticalOverlay.subtitle (streamingLogs st') (agentSolution st') =
         "MCP AGENT SWARM — PROPOSED FIX")
  ∧ (to_boolean (own_property d "decision") = false →
       CriticalOverlay.subtitle (streamingLogs st') (agentSolution st') ≠
         "MCP AGENT SWARM — PROPOSED FIX").
Proof.
  intros Ht Hlater st'.
  assert (agentSolution st' = d) as Hsol.
  { subst st'. rewrite solution_kept by done.
    unfold exec. by rewrite onmessage_solution. }
  assert (to_boolean (CriticalOverlay.decision d) =
          to_boolean (own_property d "decision")) as Hdec.
  { unfold CriticalOverlay.decision, get_opt, coalesce.
    rewrite (has_type_not_nullish _ _ Ht).
    by destruct (own_property d "decision"). }
  unfold CriticalOverlay.subtitle, CriticalOverlay.solving.
  rewrite Hsol, Hdec. split_and!; [done | done | by intros -> |].
  intros ->. simpl. by destruct (bool_decide _).
Qed.

End routes.

(** ** Requests of the page *)

Section requests.

Import App.

Implicit Types (p : page) (outcome : completion response).

Lemma receive_on_page_frames frames p :
  let p' := foldl (λ p evt_data, receive_on_page evt_data p) p frames in
  data (core p') = data (core p)
  ∧ loading p' = loading p
  ∧ error p' = error p
  ∧ hook (core p') = receive_all frames (hook (core p)).
Proof.
  revert p. induction frames as [|evt_data frames IH]; intros p; [done|].
  simpl. destruct (IH (receive_on_page evt_data p)) as (Hd & Hl & He & Hh).
  rewrite Hd, Hl, He, Hh. simpl.
  by rewrite receive_data, receive_hook.
Qed.

Lemma settle_loading p outcome :
  loading (exec (runOrchestration_settle outcome) p) = false.
Proof.
  destruct outcome as [[[] status [body|e]]|e]; try done;
    destruct e as [| | reason]; try done;
    unfold exec, runOrchestration_settle, try_finally, try_catch, bind, eval,
      message, get; simpl; by destruct (nullish reason).
Qed.

Lemma settle_success p res body :
  ok res = true →
  json res = Normal body →
  exec (runOrchestration_settle (Normal res)) p =
    Page (State body (hook (core p))) false (error p).
Proof. destruct res as [? ? ?]. by intros [= ->] [= ->]. Qed.

Lemma settle_not_ok p res :
  ok res = false →
  exec (runOrchestration_settle (Normal res)) p =
    Page (core p) false (VStr ("API " +:+ pretty (http_status res))).
Proof.
  destruct res as [? status ?]. intros [= ->].
  unfold exec, runOrchestration_settle, try_finally, try_catch, bind, eval,
    message, get. simpl. by rewrite lookup_singleton_eq.
Qed.

(** X15.  However the request of [runOrchestration] ends, [loading] is false
    again and the state of the stream is not touched.  A 2xx response with
    a JSON body replaces the snapshot and leaves [error] as [begin] cleared
    it.  Any failure keeps the snapshot held before: a response that is not
    2xx sets [error] to "API " and its status, and a rejection (of the
    request or of the body) sets it to the message of its reason. *)
Theorem orchestration_outcomes p outcome :
  let p' := exec (runOrchestration_settle outcome) p in
  loading p' = false
  ∧ hook (core p') = hook (core p)
  ∧ error (exec runOrchestration_begin p) = VNull
  ∧ (∀ res body,
       outcome = Normal res → ok res = true → json res = Normal body →
       data (core p') = body ∧ error p' = error p)
  ∧ (∀ res,
       outcome = Normal res → ok res = false →
       core p' = core p
       ∧ error p' = VStr ("API " +:+ pretty (http_status res)))
  ∧ (∀ reason,
       outcome = Throw (Rejected reason)
       ∨ (∃ res, outcome = Normal res ∧ ok res = true
                 ∧ json res = Throw (Rejected reason)) →
       core p' = core p
       ∧ error p' =
           (if nullish reason then error p else own_property reason "message")).
Proof.
  intros p'. subst p'. split_and!.
  - destruct outcome as [[[] status [body|e]]|e]; try done;
      destruct e as [| | reason]; try done;
      unfold exec, runOrchestration_settle, try_finally, try_catch, bind, eval,
        message, get; simpl; by destruct (nullish reason).
  - destruct outcome as [[[] status [body|e]]|e]; try done;
      destruct e as [| | reason]; try done;
      unfold exec, runOrchestration_settle, try_finally, try_catch, bind, eval,
        message, get; simpl; by destruct (nullish reason).
  - done.
  - by intros [? ? ?] body -> [= ->] [= ->].
  - intros [? status ?] -> [= ->]. split; [by destruct p as [[] ? ?]|].
    unfold exec, runOrchestration_settle, try_finally, try_catch, bind, eval,
      message, get. simpl. by rewrite lookup_singleton_eq.
  - intros reason [-> | ([? ? ?] & -> & [= ->] & [= ->])];
      unfold exec, runOrchestration_settle, try_finally, try_catch, bind, eval,
        message, get; simpl; destruct (nullish reason);
      by destruct p as [[] ? ?].
Qed.

(** X16.  The button "Run Orchestration" of the overlay closes the overlay at
    once and drops the snapshot, the solution and the timeline, while the
    request it started is still under way.  Whatever frames arrive in
    between, a success then shows the new snapshot and a failure leaves the
    page without one. *)
Theorem run_from_overlay p frames outcome :
  let p1 := exec CriticalOverlay.onRunOrchestration p in
  let p2 := foldl (λ p evt_data, receive_on_page evt_data p) p1 frames in
  let p3 := exec (runOrchestration_settle outcome) p2 in
  (visible (core p1) = false
   ∧ data (core p1) = VNull
   ∧ useWebSocket.agentSolution (hook (core p1)) = VNull
   ∧ useWebSocket.streamingLogs (hook (core p1)) = []
   ∧ loading p1 = true
   ∧ error p1 = VNull)
  ∧ loading p3 = false
  ∧ (∀ res body,
       outcome = Normal res → ok res = true → json res = Normal body →
       data (core p3) = body ∧ error p3 = VNull)
  ∧ (∀ res,
       outcome = Normal res → ok res = false →
       data (core p3) = VNull
       ∧ error p3 = VStr ("API " +:+ pretty (http_status res))).
Proof.
  intros p1 p2 p3.
  destruct (receive_on_page_frames frames p1) as (Hd & Hl & He & _).
  fold p2 in Hd, Hl, He.
  split_and!; try done.
  - apply settle_loading.
  - intros res body -> Hk Hj. subst p3.
    rewrite (settle_success _ _ body) by done. simpl.
    split; [done|]. by rewrite He.
  - intros res -> Hk. subst p3. rewrite settle_not_ok by done. simpl.
    split; [|done]. by rewrite Hd.
Qed.

(** X17.  Closing the overlay by hand is not the reset of system_resumed: the
    live tick and the alert record stay, so the status keeps following the
    last tick, and the overlay stays closed under every tick that follows.
    Doing it twice is doing it once. *)
Theorem dismiss_keeps_live_view (a : App.state) ticks :
  Forall untyped ticks →
  let a' := exec handleDismissOverlay a in
  liveTel a' = liveTel a
  ∧ useWebSocket.lastAlert (hook a') = useWebSocket.lastAlert (hook a)
  ∧ status a' = coalesce (get_opt (liveTel a) "unit_status") (VStr "IDLE")
  ∧ exec handleDismissOverlay a' = a'
  ∧ visible (receive_ticks ticks a') = false.
Proof.
  intros Hticks a'. subst a'. split_and!; try done.
  unfold visible. by rewrite receive_ticks_critical.
Qed.

(** X23.  While a critical event is held, the overlay reads every field
    from the payload of the alert alone: a field the alert does not carry
    shows as the dash (or "UNKNOWN"), whatever the live tick holds, and the
    ticks that arrive do not change what is shown. *)
Theorem overlay_reads_the_alert_only (a : App.state) ticks :
  own_property (useWebSocket.criticalEvent (hook a)) "type" = VStr "alert" →
  Forall untyped ticks →
  let held := useWebSocket.criticalEvent (hook a) in
  let shown := telemetry (receive_ticks ticks a) in
  CriticalOverlay.rul shown = coalesce (own_property held "rul") (VStr "—")
  ∧ CriticalOverlay.vibration shown =
      coalesce (own_property held "vibration") (VStr "—")
  ∧ CriticalOverlay.unitId shown =
      coalesce (own_property held "unit_id") (VStr "UNKNOWN")
  ∧ CriticalOverlay.cycle shown =
      coalesce (own_property held "cycle") (VStr "—").
Proof.
  intros Ht Hticks held shown.
  assert (shown = held) as ->.
  { subst shown held. unfold telemetry.
    rewrite receive_ticks_critical by done.
    by rewrite coalesce_not_nullish by by eapply has_type_not_nullish. }
  subst held.
  unfold CriticalOverlay.rul, CriticalOverlay.vibration,
    CriticalOverlay.unitId, CriticalOverlay.cycle, get_opt.
  by rewrite (has_type_not_nullish _ _ Ht).
Qed.

End requests.

(** ** The unit list of the header *)

Section header.

Import Header.

(** X18.  [load] never throws and always ends with [fetching] false.  A 2xx
    response whose body is JSON other than null replaces the list by the
    [units] of the body, or by the empty list when the body has none.
    Anything else (a rejection, another status, a body that is not JSON or
    is null) leaves the list as it was, silently. *)
Theorem unit_list_outcomes (st : state) outcome :
  let st' := exec (load_settle outcome) st in
  (load_settle outcome st).1 = Normal ()
  ∧ fetching st' = false
  ∧ (∀ res data,
       outcome = Normal res → App.ok res = true →
       App.json res = Normal data → nullish data = false →
       units st' = or_else (own_property data "units") (VArr []))
  ∧ ((¬ ∃ res data,
         outcome = Normal res ∧ App.ok res = true
         ∧ App.json res = Normal data ∧ nullish data = false) →
       units st' = units st).
Proof.
  intros st'. subst st'.
  unfold exec, load_settle, try_catch, bind, eval, get.
  destruct outcome as [[[] status [data|e]]|e]; simpl;
    try (split_and!; [done | done | by intros ? ? [= <-] | done]).
  destruct (nullish data) eqn:Hn; simpl.
  - split_and!; [done | done | |done].
    intros res data' [= <-] _ [= <-]. by rewrite Hn.
  - split_and!; [done | done | |].
    + by intros res data' [= <-] _ [= <-] _.
    + intros Hnot. destruct Hnot. by exists (App.Response true status (Normal data)), data.
Qed.

End header.

(** ** The chat transcript *)

Section chat.

Import ChatPanel.

Variable trim : string → string.

Lemma send_refused (st : state) :
  trim (input st) = "" ∨ sending st = true →
  send_begin trim st = (Normal None, st).
Proof.
  unfold send_begin. intros [-> | ->]; [done|]. by rewrite orb_true_r.
Qed.

(** X19.  A send is never doubled.  From rest, a send of an input that is not
    blank posts the trimmed input, puts it in the transcript as the user's
    and empties the input; until its request settles every further send,
    whatever was typed meanwhile, posts nothing and changes nothing; once it
    has settled, sending is possible again. *)
Theorem send_is_not_doubled (st : state) typed outcome :
  trim (input st) ≠ "" →
  sending st = false →
  let st1 := (send_begin trim st).2 in
  let st1' := State (messages st1) typed (sending st1) (overrides st1) in
  (send_begin trim st).1 = Normal (Some (trim (input st)))
  ∧ messages st1 =
      messages st ++ [Message "user" (Plain (VStr (trim (input st))))]
  ∧ input st1 = ""
  ∧ send_begin trim st1' = (Normal None, st1')
  ∧ sending (exec (send_settle outcome) st1') = false.
Proof.
  intros Hne Hidle st1 st1'.
  assert (send_begin trim st =
            (Normal (Some (trim (input st))),
             State (messages st ++
                      [Message "user" (Plain (VStr (trim (input st))))])
                   "" true (overrides st))) as Hbegin.
  { unfold send_begin. simpl. by rewrite Hidle, bool_decide_eq_false_2. }
  subst st1' st1. rewrite Hbegin. simpl. split_and!; try done.
  - apply send_refused. by right.
  - unfold exec, send_settle, try_finally.
    destruct (try_catch _ _ _) as [c s']. simpl. done.
Qed.

(** X20.  When the request of a send settles, the transcript keeps all it had and
    gets one message more, [sending] is false again, and [onOverride] is
    called only for a reply whose [override_active] is truthy, once.  A
    reply without text gets the stock text of its kind.  A failure is put
    in the transcript as the agent's and never counts as an override. *)
Theorem chat_reply (st : state) outcome :
  let st' := exec (send_settle outcome) st in
  sending st' = false
  ∧ input st' = input st
  ∧ messages st `prefix_of` messages st'
  ∧ (∀ res data,
       outcome = Normal res → App.json res = Normal data →
       nullish data = false →
       let reply := own_property data "reply" in
       if to_boolean (own_property data "override_active")
       then messages st' =
              messages st ++
                [Message "override"
                   (Plain (or_else reply (VStr "⚠️ HUMAN OVERRIDE ACTIVATED")))]
            ∧ overrides st' = S (overrides st)
       else messages st' =
              messages st ++
                [Message "agent" (Plain (or_else reply (VStr "No response.")))]
            ∧ overrides st' = overrides st)
  ∧ ((¬ ∃ res data,
         outcome = Normal res ∧ App.json res = Normal data
         ∧ nullish data = false) →
       overrides st' = overrides st
       ∧ (messages st' = messages st
          ∨ ∃ text, messages st' =
                      messages st ++ [Message "agent" (ErrorText text)])).
Proof.
  intros st'. subst st'.
  unfold exec, send_settle, try_finally, try_catch, bind, eval, get, JS.message.
  destruct outcome as [[okay status [data|e]]|e]; simpl.
  - destruct (nullish data) eqn:Hn; simpl.
    + split_and!; [done | done | by apply prefix_app_r | |].
      * intros res data' [= <-] [= <-]. by rewrite Hn.
      * intros _. split; [done|]. right. by eexists.
    + destruct (to_boolean (own_property data "override_active")) eqn:Hf; simpl.
      * split_and!; [done | done | by apply prefix_app_r | |].
        -- intros res data' [= <-] [= <-] _. simpl. by rewrite Hf.
        -- intros Hnot. destruct Hnot.
           by exists (App.Response okay status (Normal data)), data.
      * split_and!; [done | done | by apply prefix_app_r | |].
        -- intros res data' [= <-] [= <-] _. simpl. by rewrite Hf.
        -- intros Hnot. destruct Hnot.
           by exists (App.Response okay status (Normal data)), data.
  - destruct e as [| | reason]; try destruct reason; simpl.
    all: split_and!; try done; try by apply prefix_app_r.
    all: try by intros res data' [= <-].
    all: intros _; (split; [done|]); first [by right; eexists | by left].
  - destruct e as [| | reason]; try destruct reason; simpl.
    all: split_and!; try done; try by apply prefix_app_r.
    all: intros _; (split; [done|]); first [by right; eexists | by left].
Qed.

End chat.

(** ** The typewriter *)

Section typewriter.

Import TypewriterText.

Context {U : Type}.

Implicit Types (text : list U) (st : state U).

Lemma ticks_typing text j k c :
  (j + k < length text)%nat →
  ticks k text (State (take j text) j true c) =
    Some (State (take (j + k) text) (j + k) true c).
Proof.
  revert j. induction k as [|k IH]; intros j Hlt.
  - by rewrite Nat.add_0_r.
  - simpl. unfold tick. simpl.
    rewrite (bool_decide_eq_false_2 (length text ≤ S j)%nat) by lia. simpl.
    rewrite (IH (S j)) by lia.
    by replace (S j + k)%nat with (j + S k)%nat by lia.
Qed.

(** X21.  The typewriter shows the text one code unit more at each tick, is done
    when it shows all of it, after as many ticks as the text is long, and
    calls [onComplete] then, once; no tick comes after.  On an empty text it
    never ticks and never calls [onComplete]. *)
Theorem typewriter_completes_once text st :
  let st0 := effect text st in
  (∀ k, (k < length text)%nat →
        ticks k text st0 = Some (State (take k text) k true (completed st)))
  ∧ (text ≠ [] →
       ticks (length text) text st0 =
         Some (State text (length text) false (S (completed st))))
  ∧ (∀ k, (length text < k)%nat → ticks k text st0 = None)
  ∧ (text = [] → completed st0 = completed st ∧ running st0 = false).
Proof.
  intros st0.
  assert (∀ k, (k < length text)%nat →
            ticks k text st0 = Some (State (take k text) k true (completed st)))
    as Htyping.
  { intros k Hk. subst st0. unfold effect.
    rewrite bool_decide_eq_true_2 by (intros ->; simpl in Hk; lia).
    apply (ticks_typing text 0 k). lia. }
  assert (text ≠ [] →
          ticks (length text) text st0 =
            Some (State text (length text) false (S (completed st)))) as Hdone.
  { intros Hne. destruct (length text) as [|n] eqn:Hlen.
    { by destruct text. }
    assert (ticks (S n) text st0 =
            (ticks n text st0 ≫= tick text)) as ->.
    { clear. generalize st0. induction n as [|n IH]; intros s0.
      - simpl. by destruct (tick text s0).
      - change (ticks (S (S n)) text s0)
          with (tick text s0 ≫= ticks (S n) text).
        change (ticks (S n) text s0) with (tick text s0 ≫= ticks n text).
        destruct (tick text s0) as [s1|]; [|done]. simpl. apply IH. }
    rewrite Htyping by lia. simpl. unfold tick. simpl.
    rewrite (bool_decide_eq_true_2 (length text ≤ S n)%nat) by lia.
    by rewrite <- Hlen, firstn_all. }
  split_and!; [done | done | |].
  - intros k Hk. destruct (decide (text = [])) as [-> | Hne].
    + destruct k; [simpl in Hk; lia|]. done.
    + replace k with (length text + S (k - S (length text)))%nat by lia.
      generalize (k - S (length text))%nat as r. intros r.
      assert (∀ a b s0, ticks (a + b) text s0 =
                (ticks a text s0 ≫= ticks b text)) as Hadd.
      { clear. induction a as [|a IH]; intros b s0; [done|].
        simpl. destruct (tick text s0); [apply IH | done]. }
      rewrite Hadd, Hdone by done. done.
  - intros ->. done.
Qed.

End typewriter.

(** ** The downtime counter *)

Section downtime.

Import CriticalOverlay.

Lemma string_app_length s1 s2 :
  String.length (s1 +:+ s2) = (String.length s1 + String.length s2)%nat.
Proof. induction s1 as [|a s1 IH]; simpl; [done | by rewrite IH]. Qed.

Lemma string_app_inj_tail s1 s2 r1 r2 :
  String.length r1 = String.length r2 →
  s1 +:+ r1 = s2 +:+ r2 →
  s1 = s2 ∧ r1 = r2.
Proof.
  intros Hlen. revert s2.
  induction s1 as [|a s1 IH]; intros [|b s2] Heq; simpl in *.
  - done.
  - apply (f_equal String.length) in Heq.
    rewrite !string_app_length in Heq. simpl in Heq. lia.
  - apply (f_equal String.length) in Heq.
    rewrite !string_app_length in Heq. simpl in Heq. lia.
  - injection Heq as -> Heq. destruct (IH s2 Heq) as [-> ->]. done.
Qed.

(** A fact checked for each number of seconds below 60. *)
Lemma below_60 (P : Z → bool) :
  forallb (λ n, P (Z.of_nat n)) (seq 0 60) = true →
  ∀ z, 0 ≤ z < 60 → P z = true.
Proof.
  intros Hall z Hz. rewrite forallb_forall in Hall.
  rewrite <- (Z2Nat.id z) by lia. apply Hall, in_seq. lia.
Qed.

Lemma seconds_field_length sec :
  0 ≤ sec < 60 → String.length (seconds_field sec) = 5%nat.
Proof.
  intros Hs.
  apply (Nat.eqb_eq _ 5), (below_60 (λ z, String.length (seconds_field z) =? 5)%nat);
    [by vm_compute | done].
Qed.

Lemma seconds_field_inj a b :
  0 ≤ a < 60 → 0 ≤ b < 60 → seconds_field a = seconds_field b → a = b.
Proof.
  intros Ha Hb Heq.
  assert (forallb (λ n, forallb (λ k,
            implb (String.eqb (seconds_field (Z.of_nat n))
                              (seconds_field (Z.of_nat k)))
                  (n =? k)%nat) (seq 0 60)) (seq 0 60) = true) as Hall
    by by vm_compute.
  rewrite forallb_forall in Hall.
  specialize (Hall (Z.to_nat a)). rewrite forallb_forall in Hall.
  specialize (Hall ltac:(apply in_seq; lia) (Z.to_nat b)
                ltac:(apply in_seq; lia)).
  rewrite !Z2Nat.id in Hall by lia.
  rewrite Heq, String.eqb_refl in Hall. simpl in Hall.
  apply Nat.eqb_eq in Hall. lia.
Qed.

Lemma short_length sec :
  0 ≤ sec < 60 → (String.length (pretty sec +:+ "s") ≤ 3)%nat.
Proof.
  intros Hs.
  apply Nat.leb_le,
    (below_60 (λ z, String.length (pretty z +:+ "s") <=? 3)%nat);
    [by vm_compute | done].
Qed.

Lemma fmtTime_below_minute s :
  0 ≤ s < 60 → fmtTime s = pretty s +:+ "s".
Proof.
  intros Hs. unfold fmtTime.
  rewrite Z.div_small, Z.rem_small by lia. done.
Qed.

Lemma fmtTime_from_minute s :
  60 ≤ s →
  fmtTime s = pretty (s `div` 60) +:+ seconds_field (s `mod` 60).
Proof.
  intros Hs. unfold fmtTime, seconds_field.
  assert (0 < s `div` 60) by (apply Z.div_str_pos; lia).
  rewrite bool_decide_eq_true_2 by done.
  by rewrite Z.rem_mod_nonneg by lia.
Qed.

(** X22.  Below a minute the counter reads as the seconds and "s"; from a minute
    on as the minutes, "m ", the seconds on two digits, and "s".  Two
    different downtimes never read the same. *)
Theorem fmtTime_reads_back a b :
  0 ≤ a →
  0 ≤ b →
  (a < 60 → fmtTime a = pretty a +:+ "s")
  ∧ (60 ≤ a →
       fmtTime a =
         pretty (a `div` 60) +:+ "m " +:+ padStart 2 (pretty (a `mod` 60))
         +:+ "s"
       ∧ String.length (padStart 2 (pretty (a `mod` 60))) = 2%nat)
  ∧ (fmtTime a = fmtTime b → a = b).
Proof.
  intros Ha Hb. split_and!.
  - intros Hlt. by apply fmtTime_below_minute.
  - intros Hge. split; [by apply fmtTime_from_minute|].
    pose proof (seconds_field_length (a `mod` 60)
                  ltac:(apply Z.mod_pos_bound; lia)) as Hlen.
    unfold seconds_field in Hlen. rewrite !string_app_length in Hlen.
    simpl in Hlen. lia.
  - intros Heq.
    assert (∀ s, 0 ≤ s `mod` 60 < 60) as Hmod
      by (intros; apply Z.mod_pos_bound; lia).
    assert (∀ x y, 0 ≤ x < 60 → 60 ≤ y → fmtTime x ≠ fmtTime y) as Hmixed.
    { intros x y Hx Hy Hxy.
      rewrite fmtTime_below_minute, fmtTime_from_minute in Hxy by done.
      apply (f_equal String.length) in Hxy.
      rewrite (string_app_length (pretty (y `div` 60))) in Hxy.
      rewrite seconds_field_length in Hxy by done.
      pose proof (short_length x Hx). lia. }
    destruct (decide (a < 60)) as [Hla | Hga], (decide (b < 60)) as [Hlb | Hgb].
    + rewrite !fmtTime_below_minute in Heq by lia.
      apply string_app_inj_tail in Heq as [Heq _]; [|done].
      by apply (inj pretty).
    + destruct (Hmixed a b); [lia | lia | done].
    + destruct (Hmixed b a); [lia | lia | done].
    + rewrite !fmtTime_from_minute in Heq by lia.
      apply string_app_inj_tail in Heq as [Hm Hs].
      2:{ by rewrite !seconds_field_length. }
      apply (inj pretty) in Hm. apply seconds_field_inj in Hs; [|done..].
      rewrite (Z.div_mod a 60), (Z.div_mod b 60) by lia. by rewrite Hm, Hs.
Qed.

End downtime.

(** ** Concrete runs *)

Section examples.

Import Sample.

(** C1, as stated, fails for an identifier that is an array: the same text
    is delivered twice, parsed twice, and held twice. *)
Lemma array_identifier_held_twice :
  let d := mcp (VArr [num 1]) "Watchman" "Querying telemetry" in
  mcp_step d
  ∧ timeline [d; d] = [d; d]
  ∧ ¬ NoDup (step_of <$> timeline [d; d]).
Proof.
  intros d.
  assert (timeline [d; d] = [d; d]) as Ht by (vm_compute; reflexivity).
  split_and!; [vm_compute; reflexivity | done |].
  rewrite Ht. simpl. intros [Hd _]%NoDup_cons.
  apply Hd. by left.
Qed.

Lemma timeline_exactly_once_first_arrival_witness :
  let datas := run_A ++ [mcp (num 2) "Foreman" "Building context"] in
  Forall (λ d, mcp_step d ∧ scalar (step_of d) = true) datas
  ∧ NoDup (step_of <$> timeline datas)
  ∧ timeline datas = run_A.
Proof.
  intros datas.
  assert (Forall (λ d, mcp_step d ∧ scalar (step_of d) = true) datas) as H.
  { repeat (constructor; [split; vm_compute; reflexivity|]). constructor. }
  split; [exact H|]. split.
  - exact (proj1 (timeline_exactly_once_first_arrival datas H)).
  - vm_compute. reflexivity.
Defined.

Lemma reconnect_delay_sequence_witness :
  "ENGINE-001" ≠ "" ∧ (1 ≤ 5)%nat
  ∧ ∃ s, run (mount "ENGINE-001")
             (failures (λ _, true) 4 ++ [SocketClose 4 true]) = Some s
         ∧ timeouts s = {[ 4%nat := Timeout 30000 "ENGINE-001" ]}
         ∧ tries s = 5.
Proof.
  assert ("ENGINE-001" ≠ "") as Hu by discriminate.
  assert (1 ≤ 5)%nat as Hn by lia.
  split; [exact Hu|]. split; [exact Hn|].
  destruct (reconnect_delay_sequence "ENGINE-001" (λ _, true) 5 Hu Hn)
    as [(s & Hrun & _ & Htimeouts & Htries) _].
  exists s. split; [exact Hrun|]. split; [exact Htimeouts | exact Htries].
Defined.

Lemma tick_untyped rul unit_status : untyped (tick rul unit_status).
Proof. split; [done|]. intros name _. vm_compute. discriminate. Qed.

Lemma critical_alert_freezes_alert_payload_witness :
  let st := App.State VNull healthy in
  let ticks := [tick 119 "HEALTHY"; tick 118 "HEALTHY"] in
  let later := receive_ticks ticks (App.receive (Json alert) st) in
  own_property alert "type" = VStr "alert"
  ∧ own_property alert "isError" = VBool true
  ∧ Forall untyped ticks
  ∧ App.telemetry later = alert
  ∧ CriticalOverlay.rul (App.telemetry later) = num 0.
Proof.
  intros st ticks later.
  assert (own_property alert "type" = VStr "alert") as Ht
    by (vm_compute; reflexivity).
  assert (own_property alert "isError" = VBool true) as He
    by (vm_compute; reflexivity).
  assert (Forall untyped ticks) as Hticks
    by (repeat constructor; apply tick_untyped).
  split; [exact Ht|]. split; [exact He|]. split; [exact Hticks|].
  destruct (critical_alert_freezes_alert_payload st alert ticks Ht
              (or_introl He) Hticks) as (_ & (_ & _ & Hshown) & Hrul & _).
  split; [exact Hshown|].
  etransitivity; [exact Hrul|]. vm_compute. reflexivity.
Defined.

(** C3, as stated, fails for an alert that carries no telemetry: the live
    tick held at the time of the alert reads 120, the alert qualifies, and
    what is frozen is the alert, not that tick; the overlay reads the
    placeholder where the tick had 120, at the alert and after a later
    tick. *)
Lemma bare_alert_freezes_no_reading :
  let st := App.State VNull healthy in
  let halted := App.receive (Json bare_alert) st in
  let later := receive_ticks [tick 119 "HEALTHY"] halted in
  own_property bare_alert "type" = VStr "alert"
  ∧ own_property bare_alert "isError" = VBool true
  ∧ own_property bare_alert "severity" = VStr "critical"
  ∧ own_property (App.liveTel st) "rul" = num 120
  ∧ CriticalOverlay.rul (App.telemetry st) = num 120
  ∧ criticalEvent (App.hook halted) ≠ VNull
  ∧ criticalEvent (App.hook halted) ≠ App.liveTel st
  ∧ App.telemetry halted ≠ App.telemetry st
  ∧ CriticalOverlay.rul (App.telemetry halted) = VStr "—"
  ∧ CriticalOverlay.rul (App.telemetry halted) ≠
      CriticalOverlay.rul (App.telemetry st)
  ∧ CriticalOverlay.rul (App.telemetry later) = VStr "—".
Proof.
  intros st halted later.
  assert (criticalEvent (App.hook halted) = bare_alert) as Hc
    by (vm_compute; reflexivity).
  assert (App.telemetry halted = bare_alert) as Hshown
    by (vm_compute; reflexivity).
  assert (App.liveTel st = tick 120 "HEALTHY") as Hlive by reflexivity.
  assert (App.telemetry st = tick 120 "HEALTHY") as Hbefore
    by (vm_compute; reflexivity).
  assert (own_property bare_alert "rul" ≠ own_property (tick 120 "HEALTHY") "rul")
    as Hne by (vm_compute; discriminate).
  assert (CriticalOverlay.rul (App.telemetry halted) = VStr "—") as Hdash
    by (vm_compute; reflexivity).
  assert (CriticalOverlay.rul (App.telemetry st) = num 120) as Hrul
    by (vm_compute; reflexivity).
  split_and!.
  - vm_compute; reflexivity.
  - vm_compute; reflexivity.
  - vm_compute; reflexivity.
  - vm_compute; reflexivity.
  - exact Hrul.
  - rewrite Hc. vm_compute. discriminate.
  - rewrite Hc, Hlive. intros Heq. apply Hne. by rewrite Heq.
  - rewrite Hshown, Hbefore. intros Heq. apply Hne. by rewrite Heq.
  - exact Hdash.
  - rewrite Hdash, Hrul. vm_compute. discriminate.
  - vm_compute; reflexivity.
Qed.

(** C4, as stated, fails when the app holds an orchestration snapshot:
    after the reset the status is the one of the snapshot. *)
Lemma resumed_status_is_snapshot_status :
  let st := App.State snapshot solving in
  own_property resumed "type" = VStr "system_resumed"
  ∧ App.liveTel (App.receive (Json resumed) st) = VNull
  ∧ App.status (App.receive (Json resumed) st) = VStr "CRITICAL"
  ∧ App.status (App.receive (Json resumed) st) ≠ VStr "IDLE".
Proof.
  intros st.
  assert (App.status (App.receive (Json resumed) st) = VStr "CRITICAL") as Hs
    by (vm_compute; reflexivity).
  split_and!; [vm_compute; reflexivity | vm_compute; reflexivity | done |].
  rewrite Hs. discriminate.
Qed.

Lemma system_resumed_resets_witness :
  let st := App.State snapshot solving in
  own_property resumed "type" = VStr "system_resumed"
  ∧ App.visible (App.receive (Json resumed) st) = false
  ∧ App.status (App.receive (Json resumed) st) =
      coalesce (get_opt snapshot "status") (VStr "IDLE").
Proof.
  intros st.
  assert (own_property resumed "type" = VStr "system_resumed") as Ht
    by (vm_compute; reflexivity).
  destruct (system_resumed_resets st resumed Ht)
    as (Hv & _ & _ & _ & _ & _ & Hs & _).
  split; [exact Ht|]. split; [exact Hv | exact Hs].
Defined.

(** C5, as stated, fails for a frame of a type the router does not know:
    it replaces the live tick, and the status shown changes with it. *)
Lemma unknown_type_replaces_live_tick :
  let st := App.State VNull healthy in
  let st' := App.receive (Json heartbeat) st in
  own_property heartbeat "type" = VStr "heartbeat"
  ∧ App.liveTel st = tick 120 "HEALTHY"
  ∧ App.liveTel st' = heartbeat
  ∧ App.hook st' ≠ App.hook st
  ∧ App.status st = VStr "HEALTHY"
  ∧ App.status st' = VStr "IDLE".
Proof.
  intros st st'.
  split_and!; try (vm_compute; reflexivity).
  intros H. apply (f_equal (λ h, own_property (lastMessage h) "type")) in H.
  vm_compute in H. discriminate.
Qed.

Lemma heartbeat_unrecognised name :
  name ∈ ["mcp_step"; "solution"; "alert"; "system_resumed"] →
  own_property heartbeat "type" ≠ VStr name.
Proof.
  intros Hin Heq. vm_compute in Heq. injection Heq as <-.
  repeat (apply elem_of_cons in Hin as [Hin|Hin]; [discriminate|]).
  by apply elem_of_nil in Hin.
Qed.

Lemma unrecognised_frame_is_live_tick_witness :
  (∀ name, name ∈ ["mcp_step"; "solution"; "alert"; "system_resumed"] →
           own_property heartbeat "type" ≠ VStr name)
  ∧ onmessage (Json heartbeat) healthy =
      (Normal (), State heartbeat VNull true VNull [] VNull).
Proof.
  split; [exact heartbeat_unrecognised|].
  exact (unrecognised_frame_is_live_tick healthy heartbeat
           heartbeat_unrecognised).
Defined.

Lemma malformed_frame_dropped_witness :
  let s := Session healthy (Some 0%nat) None 0 [Socket "ENGINE-001" OPEN] ∅ 0 in
  sockets s !! 0%nat = Some (Socket "ENGINE-001" OPEN)
  ∧ ready (Socket "ENGINE-001" OPEN) = OPEN
  ∧ step s (SocketMessage 0 (Malformed "{unit_id: ")) = Some s.
Proof.
  intros s.
  assert (sockets s !! 0%nat = Some (Socket "ENGINE-001" OPEN)) as Hk
    by reflexivity.
  assert (ready (Socket "ENGINE-001" OPEN) = OPEN) as Ho by reflexivity.
  split; [exact Hk|]. split; [exact Ho|].
  exact (proj2 (malformed_frame_dropped s 0 _ "{unit_id: " Hk Ho)).
Defined.

(** C7, as stated, fails: with three steps of a run held, the first step
    of a new run does not make the timeline start over.  Under a new
    identifier it joins the tail of the previous run, and under an
    identifier of the previous run it is not taken at all. *)
Lemma new_run_step_joins_previous_tail :
  let b4 := mcp (num 4) "Watchman" "Querying telemetry (second run)" in
  let b1 := mcp (num 1) "Watchman" "Querying telemetry (second run)" in
  mcp_step b4 ∧ mcp_step b1
  ∧ streamingLogs solving = run_A
  ∧ streamingLogs (exec (onmessage (Json b4)) solving) = run_A ++ [b4]
  ∧ streamingLogs (exec (onmessage (Json b4)) solving) ≠ [b4]
  ∧ streamingLogs (exec (onmessage (Json b1)) solving) = run_A
  ∧ streamingLogs (exec (onmessage (Json b1)) solving) ≠ [b1].
Proof.
  intros b4 b1.
  assert (streamingLogs (exec (onmessage (Json b4)) solving) = run_A ++ [b4])
    as H4 by (vm_compute; reflexivity).
  assert (streamingLogs (exec (onmessage (Json b1)) solving) = run_A)
    as H1 by (vm_compute; reflexivity).
  split_and!; try done; rewrite ?H4, ?H1;
    intros H; apply (f_equal length) in H; discriminate.
Qed.

Lemma step_keeps_held_timeline_witness :
  let b4 := mcp (num 4) "Watchman" "Querying telemetry (second run)" in
  mcp_step b4
  ∧ streamingLogs solving
      `prefix_of` streamingLogs (exec (onmessage (Json b4)) solving).
Proof.
  intros b4.
  assert (mcp_step b4) as Hb by (vm_compute; reflexivity).
  split; [exact Hb|].
  exact (proj1 (step_keeps_held_timeline solving b4 ReasoningLog.initial 0 Hb)).
Defined.

Lemma system_resumed_keeps_last_alert_witness :
  own_property resumed "type" = VStr "system_resumed"
  ∧ lastAlert (exec (onmessage (Json resumed)) solving) = alert.
Proof.
  assert (own_property resumed "type" = VStr "system_resumed") as Ht
    by (vm_compute; reflexivity).
  split; [exact Ht|].
  exact (proj1 (system_resumed_keeps_last_alert solving resumed Ht)).
Defined.

End examples.


(** ** Further concrete runs *)

Section more_examples.

Import Sample.

Lemma only_qualifying_alert_halts_witness :
  criticalEvent healthy = VNull
  ∧ criticalEvent (exec (onmessage (Json alert)) healthy) ≠ VNull
  ∧ ∃ d, Json alert = Json d ∧ qualifying d = true.
Proof.
  assert (criticalEvent healthy = VNull) as H1 by reflexivity.
  assert (criticalEvent (exec (onmessage (Json alert)) healthy) ≠ VNull) as H2.
  { intros H. vm_compute in H. discriminate. }
  split; [exact H1|]. split; [exact H2|].
  destruct (only_qualifying_alert_halts (Json alert) healthy H1 H2)
    as (d & Hd & _ & Hq & _).
  exists d. split; [exact Hd | exact Hq].
Defined.

Lemma alert_during_halt_witness :
  own_property notice "type" = VStr "alert"
  ∧ lastAlert (exec (onmessage (Json notice)) solving) = notice
  ∧ criticalEvent (exec (onmessage (Json notice)) solving) = alert.
Proof.
  assert (own_property notice "type" = VStr "alert") as Ht
    by (vm_compute; reflexivity).
  destruct (alert_during_halt solving notice Ht) as (Ha & Hc & _).
  split; [exact Ht|]. split; [exact Ha|].
  rewrite Hc. vm_compute. reflexivity.
Defined.

Lemma held_identifiers_unique_witness :
  let frames := [Json (mcp (num 1) "Watchman" "Querying telemetry");
                 Json (tick 0 "CRITICAL");
                 Json (mcp (num 1) "Watchman" "Querying telemetry");
                 Json resumed;
                 Json (mcp (num 1) "Watchman" "Querying telemetry")] in
  (∀ d, Json d ∈ frames → mcp_step d → scalar (step_of d) = true)
  ∧ NoDup (step_of <$> streamingLogs (receive_all frames initial)).
Proof.
  intros frames.
  assert (∀ d, Json d ∈ frames → mcp_step d → scalar (step_of d) = true) as H.
  { intros d Hin _. subst frames.
    repeat (apply elem_of_cons in Hin as [[= ->] | Hin];
            [vm_compute; reflexivity|]).
    by apply elem_of_nil in Hin. }
  split; [exact H|]. exact (held_identifiers_unique frames H).
Defined.

Lemma solution_phase_is_kept_witness :
  let later := [Json (mcp (num 2) "Foreman" "Building context");
                Json (tick 0 "CRITICAL")] in
  own_property solution "type" = VStr "solution"
  ∧ Forall (λ evt_data, ¬ ends_solution evt_data) later
  ∧ CriticalOverlay.subtitle
      (streamingLogs (receive_all later (exec (onmessage (Json solution)) solving)))
      (agentSolution (receive_all later (exec (onmessage (Json solution)) solving)))
    = "MCP AGENT SWARM — PROPOSED FIX".
Proof.
  intros later.
  assert (own_property solution "type" = VStr "solution") as Ht
    by (vm_compute; reflexivity).
  assert (Forall (λ evt_data, ¬ ends_solution evt_data) later) as Hl.
  { subst later.
    repeat (constructor;
            [intros (d & [= <-] & [H | H]); vm_compute in H; discriminate|]).
    constructor. }
  split; [exact Ht|]. split; [exact Hl|].
  destruct (solution_phase_is_kept solving solution later Ht Hl)
    as (_ & _ & Hfix & _).
  apply Hfix. vm_compute. reflexivity.
Defined.

Lemma single_connection_witness :
  let trace := [SocketOpen 0; SocketClose 0 true; TimerFire 0] in
  "ENGINE-001" ≠ ""
  ∧ Forall browser_event trace
  ∧ run (mount "ENGINE-001") trace = Some (retrying "ENGINE-001" 1)
  ∧ (one_live_socket "ENGINE-001" (retrying "ENGINE-001" 1)
     ∨ one_pending_timer "ENGINE-001" (retrying "ENGINE-001" 1)).
Proof.
  intros trace.
  assert ("ENGINE-001" ≠ "") as Hu by discriminate.
  assert (Forall browser_event trace) as Ht by (repeat constructor).
  assert (run (mount "ENGINE-001") trace = Some (retrying "ENGINE-001" 1)) as Hr
    by (vm_compute; reflexivity).
  split; [exact Hu|]. split; [exact Ht|]. split; [exact Hr|].
  exact (proj1 (single_connection "ENGINE-001" trace _ Hu Ht Hr)).
Defined.

Lemma teardown_while_waiting_is_final_witness :
  one_pending_timer "ENGINE-001" (waiting "ENGINE-001" 0)
  ∧ timeouts (exec cleanup (waiting "ENGINE-001" 0)) = ∅
  ∧ step (exec cleanup (waiting "ENGINE-001" 0)) (TimerFire 0) = None.
Proof.
  assert (one_pending_timer "ENGINE-001" (waiting "ENGINE-001" 0)) as Hw.
  { split; [repeat constructor|]. exists 0%nat, (backoff 0). split; reflexivity. }
  destruct (teardown_while_waiting_is_final "ENGINE-001" _ Hw)
    as (Hnone & _ & Hquiet).
  split; [exact Hw|]. split; [exact Hnone|]. apply Hquiet. exact I.
Defined.

Lemma open_restarts_backoff_witness :
  "ENGINE-001" ≠ ""
  ∧ ∃ s, run (mount "ENGINE-001")
             (failures (λ _, true) 3 ++ [SocketOpen 3; SocketClose 3 false])
           = Some s
         ∧ timeouts s = {[ 3%nat := Timeout 2000 "ENGINE-001" ]}.
Proof.
  assert ("ENGINE-001" ≠ "") as Hu by discriminate.
  split; [exact Hu|].
  destruct (open_restarts_backoff "ENGINE-001" (λ _, true) 3 false Hu)
    as (s & Hrun & Ht & _).
  exists s. split; [exact Hrun | exact Ht].
Defined.

Lemma unit_change_keeps_incident_and_counter_witness :
  let s := Session solving (Some 0%nat) None 3
                   [Socket "ENGINE-001" OPEN] ∅ 0 in
  "ENGINE-002" ≠ ""
  ∧ ∃ s', step s (ChangeUnit "ENGINE-002") = Some s'
          ∧ criticalEvent (view s') = alert
          ∧ tries s' = 3.
Proof.
  intros s.
  assert ("ENGINE-002" ≠ "") as Hu by discriminate.
  split; [exact Hu|].
  destruct (unit_change_keeps_incident_and_counter s "ENGINE-002" Hu)
    as (s' & Hstep & _ & _ & _ & _ & Hc & Ht & _).
  exists s'. split; [exact Hstep|]. split; [exact Hc | exact Ht].
Defined.

Lemma reconnect_never_hot_witness :
  run (mount "ENGINE-001") [SocketClose 0 true]
    = Some (waiting "ENGINE-001" 0)
  ∧ 0 ≤ tries (waiting "ENGINE-001" 0).
Proof.
  assert (run (mount "ENGINE-001") [SocketClose 0 true]
            = Some (waiting "ENGINE-001" 0)) as Hr
    by (vm_compute; reflexivity).
  split; [exact Hr|].
  exact (proj1 (reconnect_never_hot "ENGINE-001" _ _ Hr)).
Defined.

Lemma dismiss_keeps_live_view_witness :
  let a := App.State snapshot solving in
  let ticks := [tick 0 "CRITICAL"; tick 0 "CRITICAL"] in
  Forall untyped ticks
  ∧ App.visible (receive_ticks ticks (exec App.handleDismissOverlay a)) = false.
Proof.
  intros a ticks.
  assert (Forall untyped ticks) as Ht
    by (repeat constructor; apply tick_untyped).
  split; [exact Ht|].
  exact (proj2 (proj2 (proj2 (proj2 (dismiss_keeps_live_view a ticks Ht))))).
Defined.

Lemma send_is_not_doubled_witness :
  let trim := λ s : string, s in
  trim (ChatPanel.input chat) ≠ ""
  ∧ ChatPanel.sending chat = false
  ∧ (ChatPanel.send_begin trim chat).1 = Normal (Some "status").
Proof.
  intros trim.
  assert (trim (ChatPanel.input chat) ≠ "") as Hne by discriminate.
  assert (ChatPanel.sending chat = false) as Hidle by reflexivity.
  split; [exact Hne|]. split; [exact Hidle|].
  exact (proj1 (send_is_not_doubled trim chat "cost"
                  (Throw (Rejected (Error "Failed to fetch"))) Hne Hidle)).
Defined.

Lemma overlay_reads_the_alert_only_witness :
  let a := App.receive (Json bare_alert) (App.State VNull healthy) in
  let ticks := [tick 119 "HEALTHY"] in
  own_property (criticalEvent (App.hook a)) "type" = VStr "alert"
  ∧ Forall untyped ticks
  ∧ own_property (App.liveTel a) "rul" = num 120
  ∧ CriticalOverlay.rul (App.telemetry (receive_ticks ticks a)) = VStr "—".
Proof.
  intros a ticks.
  assert (own_property (criticalEvent (App.hook a)) "type" = VStr "alert") as Ht
    by (vm_compute; reflexivity).
  assert (Forall untyped ticks) as Hticks
    by (repeat constructor; apply tick_untyped).
  split; [exact Ht|]. split; [exact Hticks|].
  split; [vm_compute; reflexivity|].
  rewrite (proj1 (overlay_reads_the_alert_only a ticks Ht Hticks)).
  vm_compute. reflexivity.
Defined.

Lemma fmtTime_reads_back_witness :
  0 ≤ 75 ∧ 0 ≤ 135
  ∧ CriticalOverlay.fmtTime 75 = "1m 15s"
  ∧ CriticalOverlay.fmtTime 75 ≠ CriticalOverlay.fmtTime 135.
Proof.
  assert (0 ≤ 75) as Ha by lia.
  assert (0 ≤ 135) as Hb by lia.
  destruct (fmtTime_reads_back 75 135 Ha Hb) as (_ & _ & Hinj).
  split; [exact Ha|]. split; [exact Hb|]. split; [vm_compute; reflexivity|].
  intros Heq. apply Hinj in Heq. lia.
Defined.

End more_examples.
